(** * BillTrim Desktop: the Electron main process and its specification

    A shallow embedding of the main-process code in [electron/preload.js]:
    the license contract ([validateLicense], [getStoredLicense],
    [storeLicenseKey] and the license IPC handlers), the environment
    handed to the child process, the port reclaimer
    ([killExistingBackend]) and the supervisor of the backend process
    ([startBackend] with its stream, timer, probe, exit and error
    callbacks, and the handlers that kill or restart the backend).

    JavaScript strings are modelled as [string], the sequence of their
    UTF-8 bytes; every character the program looks for is ASCII. Time is
    logical: the event loop delivers one event at a time, in any order
    that the armed timers, the requests in flight and the running
    children allow. *)

From Stdlib Require Import ZArith String Ascii List Lia Bool.
From stdpp Require Import base option list strings gmap pretty.

Local Open Scope string_scope.
Local Open Scope list_scope.
Local Open Scope nat_scope.

(** ** Completions: a value or a thrown exception *)

Inductive Completion (A : Type) : Type :=
| Normal (a : A)
| Throw (err : string).
Arguments Normal {A} a.
Arguments Throw {A} err.

Definition bindC {A B} (c : Completion A) (k : A → Completion B) : Completion B :=
  match c with
  | Normal a => k a
  | Throw e => Throw e
  end.

(** [try { body } catch (error) { handler }] *)
Definition try_catch {A} (body : Completion A) (handler : string → Completion A)
  : Completion A :=
  match body with
  | Normal a => Normal a
  | Throw e => handler e
  end.

#[global] Instance completion_ret : MRet Completion := fun A a => Normal a.
#[global] Instance completion_bind : MBind Completion := fun A B k c => bindC c k.

(** ** Strings *)

Definition newline : string := String (ascii_of_nat 10) EmptyString.

(** [hay.includes(needle)] *)
Fixpoint includes (hay needle : string) : bool :=
  String.prefix needle hay ||
  match hay with
  | EmptyString => false
  | String _ rest => includes rest needle
  end.

(** [parts.join('\n')] *)
Definition join_lines (parts : list string) : string := String.concat newline parts.

(** [xs.slice(-n)]: the last [n] elements, all of them when there are fewer. *)
Definition slice_last {A} (n : nat) (xs : list A) : list A :=
  drop (length xs - n) xs.

(** The white space and line terminators that [trim] removes, as far as
    they are single 8-bit characters: TAB, LF, VT, FF, CR and SPACE. *)
Definition is_space (c : ascii) : bool :=
  let n := nat_of_ascii c in
  ((9 <=? n)%nat && (n <=? 13)%nat) || (n =? 32)%nat.

Fixpoint trim_start (s : string) : string :=
  match s with
  | EmptyString => EmptyString
  | String c rest => if is_space c then trim_start rest else s
  end.

Fixpoint trim_end (s : string) : string :=
  match s with
  | EmptyString => EmptyString
  | String c rest =>
      match trim_end rest with
      | EmptyString => if is_space c then EmptyString else String c EmptyString
      | rest' => String c rest'
      end
  end.

Definition trim (s : string) : string := trim_end (trim_start s).

(** ** License validation *)

Module License.

Definition VALID_LICENSE_KEY : string := "95001958328698042535".

(** The class [\d]; [\D] is its complement. *)
Definition is_digit (c : ascii) : bool :=
  (48 <=? nat_of_ascii c)%nat && (nat_of_ascii c <=? 57)%nat.

(** [s.replace(/\D/g, '')] *)
Fixpoint strip_non_digits (s : string) : string :=
  match s with
  | EmptyString => EmptyString
  | String c rest =>
      if is_digit c then String c (strip_non_digits rest) else strip_non_digits rest
  end.

Definition validateLicense (licenseKey : string) : bool :=
  let normalized := strip_non_digits licenseKey in
  String.eqb normalized VALID_LICENSE_KEY.

(** The file system as far as the license code touches it: the content of
    [licenseFilePath] (absent when [None]) and whether the next write or
    read raises an I/O error. *)
Record FileSystem : Type := {
  licenseFile : option string;
  write_fails : bool;
  read_fails : bool;
}.

Definition existsSync (fs : FileSystem) : bool :=
  match licenseFile fs with Some _ => true | None => false end.

Definition readFileSync (fs : FileSystem) : Completion string :=
  if read_fails fs then Throw "EACCES"
  else match licenseFile fs with
       | Some content => Normal content
       | None => Throw "ENOENT"
       end.

Definition writeFileSync (fs : FileSystem) (content : string) : Completion FileSystem :=
  if write_fails fs then Throw "EACCES"
  else Normal {| licenseFile := Some content;
                 write_fails := write_fails fs;
                 read_fails := read_fails fs |}.

Definition unlinkSync (fs : FileSystem) : Completion FileSystem :=
  if write_fails fs then Throw "EACCES"
  else Normal {| licenseFile := None;
                 write_fails := write_fails fs;
                 read_fails := read_fails fs |}.

(** [getStoredLicense]: the stored key when it validates, [None] for
    JavaScript's [null]. *)
Definition getStoredLicense (fs : FileSystem) : Completion (option string) :=
  try_catch
    (if existsSync fs then
       content ← readFileSync fs;
       let licenseKey := trim content in
       Normal (if validateLicense licenseKey then Some licenseKey else None)
     else Normal None)
    (fun _error => Normal None).

Definition storeLicenseKey (fs : FileSystem) (licenseKey : string)
  : Completion (FileSystem * bool) :=
  try_catch
    (let normalized := strip_non_digits licenseKey in
     if validateLicense normalized then
       fs' ← writeFileSync fs normalized;
       Normal (fs', true)
     else Normal (fs, false))
    (fun _error => Normal (fs, false)).

(** The IPC handlers [check-license], [store-license] and [clear-license]. *)
Definition ipc_check_license (fs : FileSystem) : Completion bool :=
  storedLicense ← getStoredLicense fs;
  Normal (match storedLicense with Some _ => true | None => false end).

Definition ipc_store_license (fs : FileSystem) (licenseKey : string)
  : Completion (FileSystem * bool) :=
  storeLicenseKey fs licenseKey.

Definition ipc_clear_license (fs : FileSystem) : Completion (FileSystem * bool) :=
  try_catch
    (if existsSync fs then
       fs' ← unlinkSync fs; Normal (fs', true)
     else Normal (fs, true))
    (fun _error => Normal (fs, false)).

(** A fresh installation: no license file, a working disk. *)
Definition blank_fs : FileSystem :=
  {| licenseFile := None; write_fails := false; read_fails := false |}.

End License.

(** ** The environment of the child process *)

Module ChildEnv.

(** The directories computed when the module loads. *)
Record Paths : Type := {
  backendPath : string;
  dataDir : string;
  uploadsDir : string;
  logsDir : string;
}.

(** [path.join(a, b)] for two plain segments. *)
Definition path_join (a b : string) : string := a +:+ "/" +:+ b.

(** [process.env.NODE_ENV === 'development' || !app.isPackaged] *)
Definition isDev (penv : gmap string string) (isPackaged : bool) : bool :=
  bool_decide (penv !! "NODE_ENV" = Some "development") || negb isPackaged.

Definition pythonPaths : list string :=
  [ "/usr/local/bin";
    "/opt/homebrew/bin";
    "/usr/bin";
    "/Library/Frameworks/Python.framework/Versions/3.13/bin";
    "/Library/Frameworks/Python.framework/Versions/3.12/bin";
    "/Library/Frameworks/Python.framework/Versions/3.11/bin";
    "/Library/Frameworks/Python.framework/Versions/3.10/bin";
    "/Library/Frameworks/Python.framework/Versions/3.9/bin" ].

(** [pathEnv]: the inherited [PATH] or the empty string, with the Python
    directories that exist put in front in packaged mode on macOS. *)
Definition pathEnv (dev darwin : bool) (dir_exists : string → bool)
    (penv : gmap string string) : string :=
  let inherited := default "" (penv !! "PATH") in
  if negb dev && darwin then
    foldl (fun acc pythonPath =>
             if dir_exists pythonPath && negb (includes acc pythonPath)
             then pythonPath +:+ ":" +:+ acc else acc)
          inherited pythonPaths
  else inherited.

(** A JavaScript object whose properties hold a string or [undefined]
    ([None]); a key that is not in the map is an absent property. *)
Definition env_literal (dev darwin : bool) (dir_exists : string → bool)
    (penv : gmap string string) (p : Paths) : gmap string (option string) :=
  <["BILLTRIM_LOG_DIR" := Some (logsDir p)]>
  (<["UPLOAD_DIR" := if dev then None else Some (uploadsDir p)]>
  (<["DATABASE_PATH" := if dev then None else Some (path_join (dataDir p) "billtrim.db")]>
  (<["PYTHONUNBUFFERED" := Some "1"]>
  (<["PYTHONPATH" := Some (backendPath p)]>
  (<["PATH" := Some (pathEnv dev darwin dir_exists penv)]>
  (Some <$> penv)))))).

(** [if (env[key] === undefined) { delete env[key]; }] *)
Definition drop_undefined (e : gmap string (option string)) (key : string)
  : gmap string (option string) :=
  if bool_decide (e !! key = Some None) then delete key e else e.

(** [Object.keys(env).forEach(key => ...)] *)
Definition remove_undefined (env : gmap string (option string))
  : gmap string (option string) :=
  foldl drop_undefined env (elements (dom env)).

(** The [env] option of the [spawn] call. *)
Definition child_env (dev darwin : bool) (dir_exists : string → bool)
    (penv : gmap string string) (p : Paths) : gmap string (option string) :=
  remove_undefined (env_literal dev darwin dir_exists penv p).

(** The property value [undefined] is dropped, everything else is kept. *)
Definition defined_only (o : option (option string)) : option (option string) :=
  match o with
  | Some None => None
  | _ => o
  end.

(** The directories of a development checkout on Linux. *)
Definition sample_paths : Paths :=
  {| backendPath := "/work/BillTrim-Desktop/backend";
     dataDir := "/home/u/.config/BillTrim/data";
     uploadsDir := "/home/u/.config/BillTrim/uploads";
     logsDir := "/home/u/.config/BillTrim/logs" |}.

End ChildEnv.

(** ** The port reclaimer *)

Module PortReclaimer.

Definition BACKEND_PORT : Z := 8765.

Inductive Platform : Type := Darwin | Linux | Win32.

Definition unix_like (pf : Platform) : bool :=
  match pf with Darwin | Linux => true | Win32 => false end.

(** What [exec] hands to its callback. *)
Record ExecResult : Type := {
  exec_error : bool;
  exec_stdout : string;
}.

(** [s.split('\n')] *)
Fixpoint split_lines_aux (cur : string) (s : string) : list string :=
  match s with
  | EmptyString => [String.rev cur]
  | String c rest =>
      if Ascii.eqb c (ascii_of_nat 10)
      then String.rev cur :: split_lines_aux EmptyString rest
      else split_lines_aux (String c cur) rest
  end.

Definition split_lines (s : string) : list string := split_lines_aux EmptyString s.

Definition non_empty (s : string) : bool :=
  match s with EmptyString => false | _ => true end.

Definition list_command (pf : Platform) : string :=
  if unix_like pf then "lsof -ti:" +:+ pretty BACKEND_PORT
  else "netstat -ano | findstr :" +:+ pretty BACKEND_PORT.

Definition parse_pids (stdout : string) : list string :=
  filter (fun pid => Is_true (non_empty (trim pid))) (split_lines (trim stdout)).

Definition kill_command (pf : Platform) (pids : list string) : string :=
  if unix_like pf then "kill -9 " +:+ String.concat " " pids
  else "taskkill /F /PID " +:+ String.concat " /PID " pids.

(** What the callback of the kill command does with [resolve], in program
    order. *)
Inductive Call : Type :=
| CSetTimeoutResolve (delay : nat)    (* setTimeout(resolve, delay) *)
| CResolve.                           (* resolve() *)

Definition on_kill_done (killError : bool) : list Call :=
  (if killError then [] else [CSetTimeoutResolve 1000]) ++ [CResolve].

(** One run of [killExistingBackend] on a clock that starts at the call:
    the listing command reports [listing] after [list_ms], the kill command
    completes after another [kill_ms], with an error when [killError].
    The result lists the commands issued and every time at which
    [resolve] is called. *)
Record Reclaim : Type := {
  commands : list (nat * string);
  resolve_calls : list nat;
}.

Definition calls_at (now : nat) (cs : list Call) : list nat :=
  flat_map (fun c => match c with
                     | CResolve => [now]
                     | CSetTimeoutResolve d => [now + d]
                     end) cs.

Definition killExistingBackend (pf : Platform) (listing : ExecResult) (list_ms : nat)
    (killError : bool) (kill_ms : nat) : Reclaim :=
  let command := list_command pf in
  if exec_error listing || negb (non_empty (trim (exec_stdout listing))) then
    {| commands := [(0, command)]; resolve_calls := calls_at list_ms [CResolve] |}
  else
    let pids := parse_pids (exec_stdout listing) in
    if (length pids =? 0)%nat then
      {| commands := [(0, command)]; resolve_calls := calls_at list_ms [CResolve] |}
    else
      let killCommand := kill_command pf pids in
      {| commands := [(0, command); (list_ms, killCommand)];
         resolve_calls := calls_at (list_ms + kill_ms) (on_kill_done killError) |}.

(** A promise settles at the first call of its [resolve]. *)
Definition settled_at (r : Reclaim) : option nat :=
  match resolve_calls r with
  | [] => None
  | t :: ts => Some (foldr Nat.min t ts)
  end.

(** [startBackend] awaits [killExistingBackend()] and then resolves the
    executable, which takes [prep_ms], before it calls [spawn]. *)
Definition spawn_time (r : Reclaim) (prep_ms : nat) : option nat :=
  (fun t => t + prep_ms) <$> settled_at r.

(** Two processes hold the port: what [lsof -ti:8765] prints. *)
Definition two_pids : ExecResult :=
  {| exec_error := false;
     exec_stdout := "123" +:+ newline +:+ "456" +:+ newline |}.

End PortReclaimer.

(** ** The supervisor of the backend process *)

Module Supervisor.

(** How a child process ends: with an exit code, or through a signal. *)
Inductive ExitStatus : Type :=
| ExitCode (code : Z)
| ExitSignal (signal : string).

(** The fields of Node's [ChildProcess] object that the program reads.
    [exitCode] is [None] (JavaScript's [null]) while the child runs and
    stays so when a signal ends it: the runtime then sets [signalCode].
    [killed] is set by the object's own [kill()] alone. *)
Record ChildProcess : Type := {
  killed : bool;
  exitCode : option Z;
  signalCode : option string;
}.

Definition spawned : ChildProcess :=
  {| killed := false; exitCode := None; signalCode := None |}.

Definition has_exited (p : ChildProcess) : bool :=
  match exitCode p, signalCode p with
  | None, None => false
  | _, _ => true
  end.

(** The runtime records the end of the child before it emits ['exit']. *)
Definition record_exit (p : ChildProcess) (st : ExitStatus) : ChildProcess :=
  match st with
  | ExitSignal sg =>
      {| killed := killed p; exitCode := exitCode p; signalCode := Some sg |}
  | ExitCode c =>
      {| killed := killed p; exitCode := Some c; signalCode := signalCode p |}
  end.

(** The arguments [(code, signal)] of the ['exit'] event. *)
Definition exit_code_arg (st : ExitStatus) : option Z :=
  match st with ExitCode c => Some c | ExitSignal _ => None end.

(** [subprocess.kill()]: the signal is delivered, and [killed] set, only
    while the child runs. *)
Definition kill (p : ChildProcess) : ChildProcess :=
  if has_exited p then p
  else {| killed := true; exitCode := exitCode p; signalCode := signalCode p |}.

(** What a launch attempt's promise is settled with: [resolve()] or
    [reject(new Error(message))]. *)
Inductive Outcome : Type :=
| Ready
| Failed (message : string).

(** A promise keeps the first outcome it is settled with. *)
Inductive PromiseState : Type :=
| Pending
| Settled (o : Outcome).

Inductive ProbeKind : Type :=
| MarkerProbe      (* issued by a debounce callback *)
| DeadlineProbe.   (* issued by the 30 s callback *)

(** How a [GET /health] request ends. *)
Inductive ProbeResult : Type :=
| Responded (statusCode : Z)
| ConnectionError
| TimedOut.

(** One call of [startBackend] that reached [spawn]: the variables its
    callbacks close over, the child it spawned, its promise, and what the
    event loop holds for it (the 30 s timer, 2 s timers, requests in
    flight). [timeoutId] is [true] while the variable holds a timer. *)
Record Attempt : Type := {
  backendReady : bool;
  errorOutput : list string;
  stdoutOutput : list string;
  sawStartupBegin : bool;
  sawMigrations : bool;
  healthCheckScheduled : bool;
  timeoutId : bool;
  child : ChildProcess;
  promise : PromiseState;
  deadlineTimer : bool;
  debounceTimers : nat;
  markerProbes : nat;
  deadlineProbes : nat;
}.

(** The state right after [timeoutId = setTimeout(..., 30000)]. *)
Definition new_attempt : Attempt :=
  {| backendReady := false; errorOutput := []; stdoutOutput := [];
     sawStartupBegin := false; sawMigrations := false;
     healthCheckScheduled := false; timeoutId := true;
     child := spawned; promise := Pending; deadlineTimer := true;
     debounceTimers := 0; markerProbes := 0; deadlineProbes := 0 |}.

Definition set_backendReady (v : bool) (a : Attempt) : Attempt :=
  {| backendReady := v; errorOutput := errorOutput a; stdoutOutput := stdoutOutput a;
     sawStartupBegin := sawStartupBegin a; sawMigrations := sawMigrations a;
     healthCheckScheduled := healthCheckScheduled a; timeoutId := timeoutId a;
     child := child a; promise := promise a; deadlineTimer := deadlineTimer a;
     debounceTimers := debounceTimers a; markerProbes := markerProbes a;
     deadlineProbes := deadlineProbes a |}.

Definition set_errorOutput (v : list string) (a : Attempt) : Attempt :=
  {| backendReady := backendReady a; errorOutput := v; stdoutOutput := stdoutOutput a;
     sawStartupBegin := sawStartupBegin a; sawMigrations := sawMigrations a;
     healthCheckScheduled := healthCheckScheduled a; timeoutId := timeoutId a;
     child := child a; promise := promise a; deadlineTimer := deadlineTimer a;
     debounceTimers := debounceTimers a; markerProbes := markerProbes a;
     deadlineProbes := deadlineProbes a |}.

Definition set_stdoutOutput (v : list string) (a : Attempt) : Attempt :=
  {| backendReady := backendReady a; errorOutput := errorOutput a; stdoutOutput := v;
     sawStartupBegin := sawStartupBegin a; sawMigrations := sawMigrations a;
     healthCheckScheduled := healthCheckScheduled a; timeoutId := timeoutId a;
     child := child a; promise := promise a; deadlineTimer := deadlineTimer a;
     debounceTimers := debounceTimers a; markerProbes := markerProbes a;
     deadlineProbes := deadlineProbes a |}.

Definition set_sawStartupBegin (v : bool) (a : Attempt) : Attempt :=
  {| backendReady := backendReady a; errorOutput := errorOutput a;
     stdoutOutput := stdoutOutput a; sawStartupBegin := v;
     sawMigrations := sawMigrations a; healthCheckScheduled := healthCheckScheduled a;
     timeoutId := timeoutId a; child := child a; promise := promise a;
     deadlineTimer := deadlineTimer a; debounceTimers := debounceTimers a;
     markerProbes := markerProbes a; deadlineProbes := deadlineProbes a |}.

Definition set_sawMigrations (v : bool) (a : Attempt) : Attempt :=
  {| backendReady := backendReady a; errorOutput := errorOutput a;
     stdoutOutput := stdoutOutput a; sawStartupBegin := sawStartupBegin a;
     sawMigrations := v; healthCheckScheduled := healthCheckScheduled a;
     timeoutId := timeoutId a; child := child a; promise := promise a;
     deadlineTimer := deadlineTimer a; debounceTimers := debounceTimers a;
     markerProbes := markerProbes a; deadlineProbes := deadlineProbes a |}.

Definition set_healthCheckScheduled (v : bool) (a : Attempt) : Attempt :=
  {| backendReady := backendReady a; errorOutput := errorOutput a;
     stdoutOutput := stdoutOutput a; sawStartupBegin := sawStartupBegin a;
     sawMigrations := sawMigrations a; healthCheckScheduled := v;
     timeoutId := timeoutId a; child := child a; promise := promise a;
     deadlineTimer := deadlineTimer a; debounceTimers := debounceTimers a;
     markerProbes := markerProbes a; deadlineProbes := deadlineProbes a |}.

Definition set_timeoutId (v : bool) (a : Attempt) : Attempt :=
  {| backendReady := backendReady a; errorOutput := errorOutput a;
     stdoutOutput := stdoutOutput a; sawStartupBegin := sawStartupBegin a;
     sawMigrations := sawMigrations a; healthCheckScheduled := healthCheckScheduled a;
     timeoutId := v; child := child a; promise := promise a;
     deadlineTimer := deadlineTimer a; debounceTimers := debounceTimers a;
     markerProbes := markerProbes a; deadlineProbes := deadlineProbes a |}.

Definition set_child (v : ChildProcess) (a : Attempt) : Attempt :=
  {| backendReady := backendReady a; errorOutput := errorOutput a;
     stdoutOutput := stdoutOutput a; sawStartupBegin := sawStartupBegin a;
     sawMigrations := sawMigrations a; healthCheckScheduled := healthCheckScheduled a;
     timeoutId := timeoutId a; child := v; promise := promise a;
     deadlineTimer := deadlineTimer a; debounceTimers := debounceTimers a;
     markerProbes := markerProbes a; deadlineProbes := deadlineProbes a |}.

Definition set_promise (v : PromiseState) (a : Attempt) : Attempt :=
  {| backendReady := backendReady a; errorOutput := errorOutput a;
     stdoutOutput := stdoutOutput a; sawStartupBegin := sawStartupBegin a;
     sawMigrations := sawMigrations a; healthCheckScheduled := healthCheckScheduled a;
     timeoutId := timeoutId a; child := child a; promise := v;
     deadlineTimer := deadlineTimer a; debounceTimers := debounceTimers a;
     markerProbes := markerProbes a; deadlineProbes := deadlineProbes a |}.

Definition set_deadlineTimer (v : bool) (a : Attempt) : Attempt :=
  {| backendReady := backendReady a; errorOutput := errorOutput a;
     stdoutOutput := stdoutOutput a; sawStartupBegin := sawStartupBegin a;
     sawMigrations := sawMigrations a; healthCheckScheduled := healthCheckScheduled a;
     timeoutId := timeoutId a; child := child a; promise := promise a;
     deadlineTimer := v; debounceTimers := debounceTimers a;
     markerProbes := markerProbes a; deadlineProbes := deadlineProbes a |}.

Definition set_debounceTimers (v : nat) (a : Attempt) : Attempt :=
  {| backendReady := backendReady a; errorOutput := errorOutput a;
     stdoutOutput := stdoutOutput a; sawStartupBegin := sawStartupBegin a;
     sawMigrations := sawMigrations a; healthCheckScheduled := healthCheckScheduled a;
     timeoutId := timeoutId a; child := child a; promise := promise a;
     deadlineTimer := deadlineTimer a; debounceTimers := v;
     markerProbes := markerProbes a; deadlineProbes := deadlineProbes a |}.

Definition set_markerProbes (v : nat) (a : Attempt) : Attempt :=
  {| backendReady := backendReady a; errorOutput := errorOutput a;
     stdoutOutput := stdoutOutput a; sawStartupBegin := sawStartupBegin a;
     sawMigrations := sawMigrations a; healthCheckScheduled := healthCheckScheduled a;
     timeoutId := timeoutId a; child := child a; promise := promise a;
     deadlineTimer := deadlineTimer a; debounceTimers := debounceTimers a;
     markerProbes := v; deadlineProbes := deadlineProbes a |}.

Definition set_deadlineProbes (v : nat) (a : Attempt) : Attempt :=
  {| backendReady := backendReady a; errorOutput := errorOutput a;
     stdoutOutput := stdoutOutput a; sawStartupBegin := sawStartupBegin a;
     sawMigrations := sawMigrations a; healthCheckScheduled := healthCheckScheduled a;
     timeoutId := timeoutId a; child := child a; promise := promise a;
     deadlineTimer := deadlineTimer a; debounceTimers := debounceTimers a;
     markerProbes := markerProbes a; deadlineProbes := v |}.

(** The module-level variables the callbacks share, and the calls of
    [startBackend] that have not reached [spawn] yet. *)
Record Globals : Type := {
  backendWasReady : bool;
  backendRestartCount : nat;
  scheduledStarts : nat;
}.

(** What a callback does that the outside can see, in program order. *)
Inductive Call : Type :=
| CallResolve                     (* resolve() *)
| CallReject (message : string)   (* reject(new Error(message)) *)
| ClearTimeout                    (* clearTimeout(timeoutId) *)
| SetDebounce                     (* setTimeout(..., 2000) *)
| HealthGet (k : ProbeKind)       (* http.get(`${BACKEND_URL}/health`) *)
| SetImmediateStart.              (* setImmediate(() => startBackend()) *)

Definition Reaction : Type := Globals * Attempt * list Call.

Definition settle (o : Outcome) (a : Attempt) : Attempt :=
  match promise a with
  | Pending => set_promise (Settled o) a
  | Settled _ => a
  end.

Definition resolveWithCleanup (g : Globals) (a : Attempt) : Reaction :=
  if negb (backendReady a) then
    let a1 := set_backendReady true a in
    let g1 := {| backendWasReady := true;
                 backendRestartCount := backendRestartCount g;
                 scheduledStarts := scheduledStarts g |} in
    if timeoutId a1 then
      (g1, settle Ready (set_timeoutId false (set_deadlineTimer false a1)),
       [ClearTimeout; CallResolve])
    else (g1, settle Ready a1, [CallResolve])
  else (g, a, []).

Definition track_progress (output : string) (a : Attempt) : Attempt :=
  let a1 := if includes output "Started server process"
            then set_sawStartupBegin true a else a in
  if includes output "migration" || includes output "alembic"
     || includes output "alembic.runtime.migration"
  then set_sawMigrations true a1 else a1.

(** The body shared by the three marker branches: arm the 2 s timer
    unless the attempt is ready or a timer was armed before. *)
Definition schedule_health_check (a : Attempt) : Attempt * list Call :=
  if negb (backendReady a) && negb (healthCheckScheduled a) then
    (set_debounceTimers (S (debounceTimers a)) (set_healthCheckScheduled true a),
     [SetDebounce])
  else (a, []).

Definition on_stdout (output : string) (g : Globals) (a : Attempt) : Reaction :=
  let a1 := track_progress output (set_stdoutOutput (stdoutOutput a ++ [output]) a) in
  let '(a2, c2) := if includes output "Uvicorn running on"
                   then schedule_health_check a1 else (a1, []) in
  let '(a3, c3) := if includes output "=== Application startup complete ==="
                   then schedule_health_check a2 else (a2, []) in
  (g, a3, c2 ++ c3).

Definition on_stderr (output : string) (g : Globals) (a : Attempt) : Reaction :=
  let a1 := track_progress output (set_errorOutput (errorOutput a ++ [output]) a) in
  if includes output "Uvicorn running on"
     || includes output "=== Application startup complete ==="
  then let '(a2, c2) := schedule_health_check a1 in (g, a2, c2)
  else (g, a1, []).

(** The 2 s callback. *)
Definition on_debounce (g : Globals) (a : Attempt) : Reaction :=
  if negb (backendReady a) then
    (g, set_markerProbes (S (markerProbes a)) a, [HealthGet MarkerProbe])
  else (g, a, []).

(** The end of a health request: status 200 calls [resolveWithCleanup];
    anything else rejects the inner promise, and the [catch] block calls
    [resolveWithCleanup] as well. A request that was answered can still
    run into its idle timeout; by then [backendReady] is set and the
    second call does nothing, so a request is taken to end once. *)
Definition on_probe_done (r : ProbeResult) (g : Globals) (a : Attempt) : Reaction :=
  match r with
  | Responded statusCode =>
      if (statusCode =? 200)%Z then resolveWithCleanup g a
      else resolveWithCleanup g a
  | ConnectionError => resolveWithCleanup g a
  | TimedOut => resolveWithCleanup g a
  end.

Definition on_error (message : string) (g : Globals) (a : Attempt) : Reaction :=
  (g, settle (Failed message) a, [CallReject message]).

Definition exit_message (code : Z) (a : Attempt) : string :=
  join_lines
    (["Backend exited with code " +:+ pretty code; "--- STDOUT ---"]
       ++ stdoutOutput a ++ ["--- STDERR ---"] ++ errorOutput a).

Definition on_exit (code : option Z) (g : Globals) (a : Attempt) : Reaction :=
  match code with
  | Some c =>
      if negb (c =? 0)%Z then
        if negb (backendReady a) then
          let fullError := exit_message c a in
          (g, settle (Failed fullError) a, [CallReject fullError])
        else if backendWasReady g && (backendRestartCount g <? 1)%nat then
          ({| backendWasReady := backendWasReady g;
              backendRestartCount := backendRestartCount g + 1;
              scheduledStarts := S (scheduledStarts g) |},
           a, [SetImmediateStart])
        else (g, a, [])
      else (g, a, [])
  | None => (g, a, [])
  end.

Definition js_bool (b : bool) : string := if b then "true" else "false".

(** [`${backendProcess?.killed}`] and [`${backendProcess?.exitCode}`] *)
Definition show_killed (bp : option ChildProcess) : string :=
  match bp with
  | None => "undefined"
  | Some p => js_bool (killed p)
  end.

Definition show_exitCode (bp : option ChildProcess) : string :=
  match bp with
  | None => "undefined"
  | Some p => match exitCode p with None => "null" | Some c => pretty c end
  end.

Definition timeout_lines (bp : option ChildProcess) (a : Attempt) : list string :=
  ["Backend startup timeout - process may have exited";
   "Process killed: " +:+ show_killed bp;
   "Exit code: " +:+ show_exitCode bp;
   "Saw startup begin: " +:+ js_bool (sawStartupBegin a);
   "Saw migrations: " +:+ js_bool (sawMigrations a);
   "--- STDOUT ---"]
    ++ slice_last 50 (stdoutOutput a)
    ++ ["--- STDERR ---"]
    ++ slice_last 50 (errorOutput a).

(** [backendProcess && !backendProcess.killed && backendProcess.exitCode === null] *)
Definition still_running (bp : option ChildProcess) : bool :=
  match bp with
  | None => false
  | Some p => negb (killed p) && bool_decide (exitCode p = None)
  end.

(** The 30 s callback; [bp] is what the module-level [backendProcess]
    holds when it runs. *)
Definition on_deadline (bp : option ChildProcess) (g : Globals) (a : Attempt)
  : Reaction :=
  if backendReady a then (g, a, [])
  else if still_running bp then
    (g, set_deadlineProbes (S (deadlineProbes a)) a, [HealthGet DeadlineProbe])
  else
    let fullError := join_lines (timeout_lines bp a) in
    if negb (backendReady a) then
      if timeoutId a then
        (g, settle (Failed fullError) (set_timeoutId false (set_deadlineTimer false a)),
         [ClearTimeout; CallReject fullError])
      else (g, settle (Failed fullError) a, [CallReject fullError])
    else (g, a, []).

(** What the event loop can deliver to one attempt. *)
Inductive AttemptEvent : Type :=
| StdoutData (output : string)
| StderrData (output : string)
| DebounceFires
| ProbeDone (k : ProbeKind) (r : ProbeResult)
| DeadlineFires
| ChildExit (st : ExitStatus)
| ChildError (message : string).

(** A timer fires only while it is armed, a request ends only while it is
    in flight, a child exits once. *)
Definition enabled (a : Attempt) (e : AttemptEvent) : bool :=
  match e with
  | StdoutData _ | StderrData _ | ChildError _ => true
  | DebounceFires => (0 <? debounceTimers a)%nat
  | ProbeDone MarkerProbe _ => (0 <? markerProbes a)%nat
  | ProbeDone DeadlineProbe _ => (0 <? deadlineProbes a)%nat
  | DeadlineFires => deadlineTimer a
  | ChildExit _ => negb (has_exited (child a))
  end.

(** The event loop's own bookkeeping, then the callback. *)
Definition react (bp : option ChildProcess) (g : Globals) (a : Attempt)
    (e : AttemptEvent) : Reaction :=
  match e with
  | StdoutData output => on_stdout output g a
  | StderrData output => on_stderr output g a
  | DebounceFires => on_debounce g (set_debounceTimers (pred (debounceTimers a)) a)
  | ProbeDone MarkerProbe r =>
      on_probe_done r g (set_markerProbes (pred (markerProbes a)) a)
  | ProbeDone DeadlineProbe r =>
      on_probe_done r g (set_deadlineProbes (pred (deadlineProbes a)) a)
  | DeadlineFires => on_deadline bp g (set_deadlineTimer false a)
  | ChildExit st => on_exit (exit_code_arg st) g (set_child (record_exit (child a) st) a)
  | ChildError message => on_error message g a
  end.

(** The whole session: the module-level variables and every attempt made
    so far. [backendProcess] holds the index of the attempt whose child
    the variable points to. *)
Record Session : Type := {
  globals : Globals;
  backendProcess : option nat;
  attempts : list Attempt;
}.

(** The session when [app.whenReady()] has called [startBackend]. *)
Definition init : Session :=
  {| globals := {| backendWasReady := false; backendRestartCount := 0;
                   scheduledStarts := 1 |};
     backendProcess := None;
     attempts := [] |}.

Inductive Event : Type :=
| At (i : nat) (e : AttemptEvent)
| Spawn               (* a call of startBackend reaches spawn *)
| LaunchAborted       (* a call of startBackend rejects before spawn *)
| IpcRestartBackend   (* the 'restart-backend' handler *)
| AppKillsBackend.    (* 'window-all-closed' or 'before-quit' *)

Inductive Effect : Type :=
| On (i : nat) (c : Call)
| Spawned (i : nat)
| Killed (i : nat)
| Aborted.

(** The object behind the module-level [backendProcess]. *)
Definition current_child (s : Session) : option ChildProcess :=
  i ← backendProcess s; child <$> attempts s !! i.

(** [if (backendProcess) { backendProcess.kill(); backendProcess = null; }] *)
Definition kill_current (s : Session) : Session * list Effect :=
  match backendProcess s with
  | Some i =>
      ({| globals := globals s; backendProcess := None;
          attempts := alter (fun a => set_child (kill (child a)) a) i (attempts s) |},
       [Killed i])
  | None => (s, [])
  end.

Definition with_scheduledStarts (n : nat) (s : Session) : Session :=
  {| globals := {| backendWasReady := backendWasReady (globals s);
                   backendRestartCount := backendRestartCount (globals s);
                   scheduledStarts := n |};
     backendProcess := backendProcess s;
     attempts := attempts s |}.

Definition step (s : Session) (e : Event) : Session * list Effect :=
  match e with
  | At i ae =>
      match attempts s !! i with
      | Some a =>
          if enabled a ae then
            let '(g', a', cs) := react (current_child s) (globals s) a ae in
            ({| globals := g'; backendProcess := backendProcess s;
                attempts := <[i := a']> (attempts s) |},
             On i <$> cs)
          else (s, [])
      | None => (s, [])
      end
  | Spawn =>
      match scheduledStarts (globals s) with
      | S n =>
          let s1 := with_scheduledStarts n s in
          ({| globals := globals s1;
              backendProcess := Some (length (attempts s));
              attempts := attempts s ++ [new_attempt] |},
           [Spawned (length (attempts s))])
      | O => (s, [])
      end
  | LaunchAborted =>
      match scheduledStarts (globals s) with
      | S n => (with_scheduledStarts n s, [Aborted])
      | O => (s, [])
      end
  | IpcRestartBackend =>
      let '(s1, fx) := kill_current s in
      (with_scheduledStarts (S (scheduledStarts (globals s1))) s1, fx)
  | AppKillsBackend => kill_current s
  end.

Fixpoint exec (s : Session) (evs : list Event) : Session :=
  match evs with
  | [] => s
  | e :: evs' => exec (step s e).1 evs'
  end.

Fixpoint trace (s : Session) (evs : list Event) : list Effect :=
  match evs with
  | [] => []
  | e :: evs' => (step s e).2 ++ trace (step s e).1 evs'
  end.

(** Observations on a trace: the calls made by the callbacks of attempt
    [i], in order, and how many of them are of a given kind. *)
Definition calls_of (i : nat) (fx : list Effect) : list Call :=
  omap (fun f => match f with
                 | On j c => if (i =? j)%nat then Some c else None
                 | _ => None
                 end) fx.

Definition count {A} (p : A → bool) (l : list A) : nat := length (List.filter p l).

Definition is_settle_call (c : Call) : bool :=
  match c with CallResolve | CallReject _ => true | _ => false end.

Definition is_resolve_call (c : Call) : bool :=
  match c with CallResolve => true | _ => false end.

Definition is_arm_call (c : Call) : bool :=
  match c with SetDebounce => true | _ => false end.

Definition is_marker_get (c : Call) : bool :=
  match c with HealthGet MarkerProbe => true | _ => false end.

Definition is_restart (f : Effect) : bool :=
  match f with On _ SetImmediateStart => true | _ => false end.

(** [resolve()] and [reject(...)] calls of attempt [i]. *)
Definition settle_calls (i : nat) (fx : list Effect) : nat :=
  count is_settle_call (calls_of i fx).

(** 2 s timers armed by attempt [i]. *)
Definition arms (i : nat) (fx : list Effect) : nat :=
  count is_arm_call (calls_of i fx).

(** Health requests issued by the 2 s callbacks of attempt [i]. *)
Definition marker_probes (i : nat) (fx : list Effect) : nat :=
  count is_marker_get (calls_of i fx).

(** Automatic restarts scheduled in the session. *)
Definition restarts (fx : list Effect) : nat := count is_restart fx.

Definition restartCount (s : Session) : nat := backendRestartCount (globals s).




(** The callbacks of the timers and of the health requests. *)
Definition timer_or_probe (e : AttemptEvent) : bool :=
  match e with
  | DebounceFires | DeadlineFires | ProbeDone _ _ => true
  | _ => false
  end.


(** A property of every attempt of a session, relative to the
    module-level variables. *)
Definition holds (P : Globals → Attempt → Prop) (s : Session) : Prop :=
  ∀ i a, attempts s !! i = Some a → P (globals s) a.

(** How an attempt of the session after a quiet step (one that runs no
    callback) relates to the session before: unchanged, freshly spawned,
    or with [kill()] applied to its child. *)
Definition quiet_origin (s : Session) (j : nat) (o : option Attempt) : Prop :=
  match o with
  | Some b =>
      attempts s !! j = Some b
      ∨ (b = new_attempt ∧ attempts s !! j = None)
      ∨ (∃ a, attempts s !! j = Some a ∧ b = set_child (kill (child a)) a)
  | None => attempts s !! j = None
  end.

(** A per-attempt quantity, 0 for an attempt that does not exist yet. *)
Definition measure_at (m : Attempt → nat) (i : nat) (s : Session) : nat :=
  from_option m 0 (attempts s !! i).

Definition b2n (b : bool) : nat := if b then 1 else 0.

(** Equality, or no more than. *)
Definition related (exact : bool) (x y : nat) : Prop :=
  if exact then x = y else x ≤ y.

(** Scenarios. *)

Definition uvicorn_line : string :=
  "INFO:     Uvicorn running on http://127.0.0.1:8765 (Press CTRL+C to quit)".

(** The child reaches readiness, crashes, is restarted once and becomes
    ready again through the 30 s callback. *)
Definition crash_after_ready : list Event :=
  [Spawn;
   At 0 (StdoutData uvicorn_line);
   At 0 DebounceFires;
   At 0 (ProbeDone MarkerProbe (Responded 200));
   At 0 (ChildExit (ExitCode 1));
   Spawn;
   At 1 DeadlineFires;
   At 1 (ProbeDone DeadlineProbe TimedOut)].

(** The first attempt of [crash_after_ready] once its health request has
    succeeded. *)
Definition ready_attempt : Attempt :=
  {| backendReady := true; errorOutput := []; stdoutOutput := [uvicorn_line];
     sawStartupBegin := false; sawMigrations := false;
     healthCheckScheduled := true; timeoutId := false;
     child := spawned; promise := Settled Ready; deadlineTimer := false;
     debounceTimers := 0; markerProbes := 0; deadlineProbes := 0 |}.

(** The child crashes before it is ready; 30 s after the spawn the timer
    fires. *)
Definition crash_then_deadline : list Event :=
  [Spawn; At 0 (ChildExit (ExitCode 1)); At 0 DeadlineFires].

(** The child prints the marker and crashes inside the 2 s debounce. *)
Definition crash_inside_debounce : list Event :=
  [Spawn;
   At 0 (StderrData uvicorn_line);
   At 0 (ChildExit (ExitCode 1));
   At 0 DebounceFires;
   At 0 (ProbeDone MarkerProbe ConnectionError)].

(** A signal ends the child during startup; the timer fires later. *)
Definition signal_then_deadline : list Event :=
  [Spawn;
   At 0 (StdoutData "INFO:     Started server process [4242]");
   At 0 (ChildExit (ExitSignal "SIGSEGV"));
   At 0 DeadlineFires;
   At 0 (ProbeDone DeadlineProbe ConnectionError)].

(** The first attempt becomes ready through the 30 s callback; the front
    end forces a restart. *)
Definition forced_restart : list Event :=
  [Spawn;
   At 0 DeadlineFires;
   At 0 (ProbeDone DeadlineProbe ConnectionError);
   IpcRestartBackend;
   At 0 (ChildExit (ExitSignal "SIGTERM"));
   Spawn].


(** The marker arrives just before the 30 s timer fires, and the health
    request of the timer succeeds before the 2 s debounce is over. *)
Definition marker_then_deadline : list Event :=
  [Spawn;
   At 0 (StdoutData uvicorn_line);
   At 0 DeadlineFires;
   At 0 (ProbeDone DeadlineProbe (Responded 200))].

End Supervisor.

(** ** The clock of the event loop *)

Module SupervisorClock.
Import Supervisor.










End SupervisorClock.

(** ** The executable resolver *)

Module Resolver.

Definition is_win32 (pf : PortReclaimer.Platform) : bool :=
  match pf with PortReclaimer.Win32 => true | _ => false end.

Definition is_darwin (pf : PortReclaimer.Platform) : bool :=
  match pf with PortReclaimer.Darwin => true | _ => false end.

(** [path.join] of segments that need no normalization. *)
Definition path_sep (pf : PortReclaimer.Platform) : string :=
  if is_win32 pf then "\" else "/".

Definition path_join (pf : PortReclaimer.Platform) (segments : list string) : string :=
  String.concat (path_sep pf) segments.

Definition is_path_separator (c : ascii) : bool :=
  Ascii.eqb c "/" || Ascii.eqb c "\".

Definition is_device_root (c : ascii) : bool :=
  let n := nat_of_ascii c in
  ((65 <=? n) && (n <=? 90)) || ((97 <=? n) && (n <=? 122)).

(** [path.isAbsolute], in its POSIX and its Windows version. *)
Definition isAbsolute (pf : PortReclaimer.Platform) (p : string) : bool :=
  match p with
  | EmptyString => false
  | String c0 rest =>
      if is_win32 pf then
        is_path_separator c0
        || match rest with
           | String c1 (String c2 _) =>
               is_device_root c0 && Ascii.eqb c1 ":" && is_path_separator c2
           | _ => false
           end
      else Ascii.eqb c0 "/"
  end.

(** What [fs.existsSync] and [fs.accessSync(_, X_OK)] answer. *)
Record Disk : Type := {
  present : string → bool;
  executable : string → bool;
}.

(** The machine the application runs on: the platform, the architecture
    the process and the system report, what the [arch] and [which]
    commands print (or that they fail), the outcome of every other shell
    command and of [fs.rmSync] (the disk afterwards, and [false] when the
    call throws), and the directories Electron hands out. *)
Record Host : Type := {
  platform : PortReclaimer.Platform;
  process_arch : string;
  os_arch : string;
  arch_output : Completion string;
  which : string → Completion string;
  shell : string → Disk → Disk * bool;
  rmSync : string → Disk → Disk * bool;
  resourcesPath : string;
  backendPath : string;
  appDataPath : string;
}.

(** [getElectronArch], [getPythonExecutable], [resolve_python] and
    [launch] below give what the source functions return and decide;
    the commands they run on the way ([arch], [which]) are recorded by
    their [call_] versions further down. *)

Definition arm64_or_x64 (arch : string) : string :=
  if String.eqb arch "arm64" then "arm64" else "x64".

Definition getElectronArch (h : Host) : string :=
  if is_darwin (platform h) then
    match arch_output h with
    | Normal arch => arm64_or_x64 (trim arch)
    | Throw _ => arm64_or_x64 (process_arch h)
    end
  else arm64_or_x64 (process_arch h).

(** The bare command the resolver ends with. *)
Definition bare_python (pf : PortReclaimer.Platform) : string :=
  if is_win32 pf then "python.exe" else "python3".

Definition bundledVenvPython (h : Host) : string :=
  if is_win32 (platform h)
  then path_join (platform h) [resourcesPath h; "bundled-venv"; "Scripts"; "python.exe"]
  else path_join (platform h) [resourcesPath h; "bundled-venv"; "bin"; "python"].

(** The system locations tried in packaged mode, by architecture. *)
Definition systemPaths (electronArch : string) : list string :=
  if String.eqb electronArch "arm64"
  then ["/opt/homebrew/bin/python3"; "/usr/local/bin/python3"; "/usr/bin/python3"]
  else ["/usr/local/bin/python3"; "/opt/homebrew/bin/python3"; "/usr/bin/python3"].

Definition getPythonExecutable (dev : bool) (h : Host) (d : Disk) : string :=
  let electronArch := getElectronArch h in
  if dev then
    let venvPython := path_join (platform h) [backendPath h; "venv"; "bin"; "python"] in
    if is_win32 (platform h) then
      let venvPythonWin :=
        path_join (platform h) [backendPath h; "venv"; "Scripts"; "python.exe"] in
      if present d venvPythonWin then venvPythonWin else bare_python (platform h)
    else
      if present d venvPython then venvPython else bare_python (platform h)
  else
    if present d (bundledVenvPython h) then bundledVenvPython h
    else if is_win32 (platform h) then "python.exe"
    else match List.find (present d) (systemPaths electronArch) with
         | Some pythonPath => pythonPath
         | None => "python3"
         end.

(** The locations [startBackend] tries on macOS for a command that is
    not an absolute path. *)
Definition commonPaths : list string :=
  [ "/usr/local/bin/python3";
    "/opt/homebrew/bin/python3";
    "/usr/bin/python3";
    "/Library/Frameworks/Python.framework/Versions/3.13/bin/python3";
    "/Library/Frameworks/Python.framework/Versions/3.12/bin/python3";
    "/Library/Frameworks/Python.framework/Versions/3.11/bin/python3";
    "/Library/Frameworks/Python.framework/Versions/3.10/bin/python3";
    "/Library/Frameworks/Python.framework/Versions/3.9/bin/python3" ].

(** [resolvedPythonExec] *)
Definition resolve_python (h : Host) (d : Disk) (pythonExec : string) : string :=
  if negb (isAbsolute (platform h) pythonExec) then
    let r1 := if is_darwin (platform h)
              then default pythonExec (List.find (present d) commonPaths)
              else pythonExec in
    if String.eqb r1 pythonExec then
      match which h pythonExec with
      | Normal out =>
          let foundPath := trim out in
          if PortReclaimer.non_empty foundPath && present d foundPath
          then foundPath else r1
      | Throw _ => r1
      end
    else r1
  else pythonExec.

(** The three ways [startBackend] rejects before it spawns. *)
Inductive LaunchError : Type :=
| NoPython
| NotFound (pythonExec resolved : string)
| NotExecutable (resolved : string).

Definition error_message (e : LaunchError) : string :=
  match e with
  | NoPython =>
      "Python executable not found. The application requires Python to run."
      +:+ newline +:+ newline
      +:+ "Please ensure Python 3.9+ is installed, or contact support if this is a packaged application."
  | NotFound pythonExec resolved =>
      "Python executable not found: " +:+ pythonExec
      +:+ " (resolved: " +:+ resolved +:+ ")" +:+ newline +:+ newline
      +:+ "Please ensure Python 3.9+ is installed and available." +:+ newline
      +:+ "On macOS, you can install Python via Homebrew: brew install python3"
      +:+ newline +:+ "Or download from: https://www.python.org/downloads/"
  | NotExecutable resolved =>
      "Python executable is not executable: " +:+ resolved
  end.

Inductive Launch : Type :=
| Rejects (e : LaunchError)
| Spawns (command : string) (args : list string).

(** [productionPython || getPythonExecutable()] *)
Definition js_or (o : option string) (fallback : string) : string :=
  match o with
  | Some s => if PortReclaimer.non_empty s then s else fallback
  | None => fallback
  end.

(** [startBackend] from the choice of the interpreter to the [spawn]
    call; [productionPython] is what [setupProductionVenv] returned
    ([None] for [null], also in development mode and when it threw). *)
Definition launch (dev : bool) (h : Host) (d : Disk) (productionPython : option string)
  : Launch :=
  let pythonExec := js_or productionPython (getPythonExecutable dev h d) in
  if negb dev && negb (PortReclaimer.non_empty pythonExec) then Rejects NoPython
  else
    let backendScript := path_join (platform h) [backendPath h; "run_server.py"] in
    let resolved := resolve_python h d pythonExec in
    if negb (present d resolved) then Rejects (NotFound pythonExec resolved)
    else if negb (is_win32 (platform h)) && negb (executable d resolved)
    then Rejects (NotExecutable resolved)
    else if is_darwin (platform h) && String.eqb (os_arch h) "arm64"
            && String.eqb (getElectronArch h) "x64"
    then Spawns "arch" ["-arm64"; resolved; backendScript]
    else Spawns resolved [backendScript].

(** The disk, and the shell commands run so far, each with whether it
    succeeded. *)
Record World : Type := {
  disk : Disk;
  ran : list (string * bool);
}.

(** [execSync(command)] for a command that may change the disk. *)
Definition run (h : Host) (command : string) (w : World) : World * bool :=
  let '(d', ok) := shell h command (disk w) in
  ({| disk := d'; ran := ran w ++ [(command, ok)] |}, ok).

Definition succeeded {A} (c : Completion A) : bool :=
  match c with Normal _ => true | Throw _ => false end.

(** What a call of [getElectronArch] runs: [execSync('arch')], on macOS
    alone. *)
Definition arch_log (h : Host) : list (string * bool) :=
  if is_darwin (platform h) then [("arch", succeeded (arch_output h))] else [].

(** A call of [getElectronArch]: the command is recorded, the value is
    [getElectronArch]. *)
Definition call_getElectronArch (h : Host) (w : World) : World * string :=
  ({| disk := disk w; ran := ran w ++ arch_log h |}, getElectronArch h).

(** A call of [getPythonExecutable], which calls [getElectronArch]
    first. *)
Definition call_getPythonExecutable (dev : bool) (h : Host) (w : World)
  : World * string :=
  let '(w1, _) := call_getElectronArch h w in
  (w1, getPythonExecutable dev h (disk w1)).

(** The resolution of [startBackend], with the [which] it may run. *)
Definition call_resolve_python (h : Host) (w : World) (pythonExec : string)
  : World * string :=
  if negb (isAbsolute (platform h) pythonExec) then
    let r1 := if is_darwin (platform h)
              then default pythonExec (List.find (present (disk w)) commonPaths)
              else pythonExec in
    if String.eqb r1 pythonExec then
      ({| disk := disk w;
          ran := ran w ++ [("which " +:+ pythonExec, succeeded (which h pythonExec))] |},
       resolve_python h (disk w) pythonExec)
    else (w, resolve_python h (disk w) pythonExec)
  else (w, resolve_python h (disk w) pythonExec).

Definition dquote : string := String (ascii_of_nat 34) EmptyString.

Definition quoted (s : string) : string := dquote +:+ s +:+ dquote.

Definition runtimeVenvPath (h : Host) : string :=
  path_join (platform h) [appDataPath h; "venv"].

Definition runtimeVenvPython (h : Host) : string :=
  if is_win32 (platform h)
  then path_join (platform h) [runtimeVenvPath h; "Scripts"; "python.exe"]
  else path_join (platform h) [runtimeVenvPath h; "bin"; "python"].

Definition pipCmd (h : Host) : string :=
  if is_win32 (platform h)
  then path_join (platform h) [runtimeVenvPath h; "Scripts"; "pip.exe"]
  else path_join (platform h) [runtimeVenvPath h; "bin"; "pip"].

Definition requirementsFile (h : Host) : string :=
  path_join (platform h) [backendPath h; "requirements.txt"].

Definition import_check (h : Host) : string :=
  quoted (runtimeVenvPython h) +:+ " -c " +:+ quoted "import uvicorn".

Definition create_venv (h : Host) (systemPython : string) : string :=
  quoted systemPython +:+ " -m venv " +:+ quoted (runtimeVenvPath h).

Definition upgrade_pip (h : Host) : string :=
  quoted (pipCmd h) +:+ " install --upgrade pip".

Definition install_requirements (h : Host) : string :=
  quoted (pipCmd h) +:+ " install -r " +:+ quoted (requirementsFile h)
  +:+ " --prefer-binary".

(** The fallback of [setupProductionVenv]: create the runtime venv and
    install the packages. *)
Definition create_runtime_venv (h : Host) (w : World) : World * option string :=
  let '(w0, systemPython) := call_getPythonExecutable false h w in
  if negb (present (disk w0) (requirementsFile h)) then (w0, None)
  else
    let '(w1, ok1) := run h (create_venv h systemPython) w0 in
    if negb ok1 then (w1, None)
    else
      let '(w2, ok2) := run h (upgrade_pip h) w1 in
      if negb ok2 then (w2, None)
      else
        let '(w3, ok3) := run h (install_requirements h) w2 in
        if negb ok3 then (w3, None)
        else if present (disk w3) (runtimeVenvPython h)
        then (w3, Some (runtimeVenvPython h))
        else (w3, None).

Definition setupProductionVenv (dev : bool) (h : Host) (w : World)
  : World * option string :=
  if dev then (w, None)
  else if present (disk w) (bundledVenvPython h) then (w, Some (bundledVenvPython h))
  else if present (disk w) (runtimeVenvPython h) then
    let '(w1, ok) := run h (import_check h) w in
    if ok then (w1, Some (runtimeVenvPython h))
    else
      let '(d2, _) := rmSync h (runtimeVenvPath h) (disk w1) in
      create_runtime_venv h {| disk := d2; ran := ran w1 |}
  else create_runtime_venv h w.

(** [startBackend] from the choice of the interpreter to the [spawn]
    call, with the commands it runs on the way: [getPythonExecutable] is
    called only when [productionPython] is falsy, and [getElectronArch]
    once more on macOS before the spawn. *)
Definition call_launch (dev : bool) (h : Host) (w : World)
    (productionPython : option string) : World * Launch :=
  let '(w1, pythonExec) :=
    match productionPython with
    | Some s => if PortReclaimer.non_empty s then (w, s)
                else call_getPythonExecutable dev h w
    | None => call_getPythonExecutable dev h w
    end in
  if negb dev && negb (PortReclaimer.non_empty pythonExec) then (w1, Rejects NoPython)
  else
    let backendScript := path_join (platform h) [backendPath h; "run_server.py"] in
    let '(w2, resolved) := call_resolve_python h w1 pythonExec in
    if negb (present (disk w2) resolved) then (w2, Rejects (NotFound pythonExec resolved))
    else if negb (is_win32 (platform h)) && negb (executable (disk w2) resolved)
    then (w2, Rejects (NotExecutable resolved))
    else if is_darwin (platform h) then
      let '(w3, electronArch) := call_getElectronArch h w2 in
      if String.eqb (os_arch h) "arm64" && String.eqb electronArch "x64"
      then (w3, Spawns "arch" ["-arm64"; resolved; backendScript])
      else (w3, Spawns resolved [backendScript])
    else (w2, Spawns resolved [backendScript]).

(** The commands of [killExistingBackend], which [startBackend] awaits
    first: the listing, and the kill command if it was issued. *)
Definition reclaim_log (pf : PortReclaimer.Platform)
    (listing : PortReclaimer.ExecResult) (killError : bool) : list (string * bool) :=
  zip (PortReclaimer.commands
         (PortReclaimer.killExistingBackend pf listing 0 killError 0)).*2
      [negb (PortReclaimer.exec_error listing); negb killError].

(** [startBackend] up to its [spawn]: the port is reclaimed, the venv is
    set up in packaged mode, then the launch on the disk that set-up
    left. [listing] is what the listing command reports and [killError]
    whether the kill command fails. The environment of the child, with
    its look at the Python directories for [PATH], runs no command and
    is [ChildEnv.child_env]. *)
Definition startBackend_plan (dev : bool) (h : Host)
    (listing : PortReclaimer.ExecResult) (killError : bool) (w : World)
  : World * Launch :=
  let w0 := {| disk := disk w;
               ran := ran w ++ reclaim_log (platform h) listing killError |} in
  let '(w1, productionPython) :=
    if negb dev then setupProductionVenv dev h w0 else (w0, None) in
  call_launch dev h w1 productionPython.

(** A packaged installation on an Apple-silicon Mac whose Electron runs
    under Rosetta: the bundled venv is in place. *)
Definition bundled_python_path : string :=
  "/Applications/BillTrim.app/Contents/Resources/bundled-venv/bin/python".

Definition rosetta_mac : Host :=
  {| platform := PortReclaimer.Darwin;
     process_arch := "x64";
     os_arch := "arm64";
     arch_output := Normal ("i386" +:+ newline);
     which := fun _ => Throw "not found";
     shell := fun _ d => (d, false);
     rmSync := fun _ d => (d, true);
     resourcesPath := "/Applications/BillTrim.app/Contents/Resources";
     backendPath := "/Applications/BillTrim.app/Contents/Resources/backend";
     appDataPath := "/Users/u/Library/Application Support/BillTrim" |}.

Definition bundled_disk : Disk :=
  {| present := fun p => String.eqb p bundled_python_path;
     executable := fun p => String.eqb p bundled_python_path |}.

(** A development checkout on Linux with no venv and no Python on the
    search path. *)
Definition bare_linux : Host :=
  {| platform := PortReclaimer.Linux;
     process_arch := "x64";
     os_arch := "x64";
     arch_output := Throw "unused";
     which := fun _ => Throw "not found";
     shell := fun _ d => (d, false);
     rmSync := fun _ d => (d, true);
     resourcesPath := "/opt/BillTrim/resources";
     backendPath := "/work/BillTrim-Desktop/backend";
     appDataPath := "/home/u/.config/BillTrim" |}.

Definition empty_disk : Disk :=
  {| present := fun _ => false; executable := fun _ => false |}.

(** A packaged installation without the bundled venv, whose runtime venv
    from an earlier start still works. *)
Definition runtime_venv_python : string :=
  "/home/u/.config/BillTrim/venv/bin/python".

Definition packaged_linux : Host :=
  {| platform := PortReclaimer.Linux;
     process_arch := "x64";
     os_arch := "x64";
     arch_output := Throw "unused";
     which := fun _ => Throw "not found";
     shell := fun _ d => (d, true);
     rmSync := fun _ d => (d, true);
     resourcesPath := "/opt/BillTrim/resources";
     backendPath := "/opt/BillTrim/resources/backend";
     appDataPath := "/home/u/.config/BillTrim" |}.

Definition runtime_venv_disk : Disk :=
  {| present := fun p => String.eqb p runtime_venv_python;
     executable := fun p => String.eqb p runtime_venv_python |}.

End Resolver.

(** ** Scenarios for the license file *)

Module LicenseScenarios.

(** An installation that holds a license, written by hand with dashes
    and a final line end. *)
Definition licensed_fs : License.FileSystem :=
  {| License.licenseFile := Some ("9500-1958-3286-9804-2535" +:+ newline);
     License.write_fails := false;
     License.read_fails := false |}.

End LicenseScenarios.

(** ** Names for the environment of the child *)

Module ChildEnvKeys.

(** The variables the [env] literal of [startBackend] sets itself. *)
Definition overridden : list string :=
  ["PATH"; "PYTHONPATH"; "PYTHONUNBUFFERED"; "DATABASE_PATH"; "UPLOAD_DIR";
   "BILLTRIM_LOG_DIR"].

End ChildEnvKeys.

(** ** Waiting for the backend, and the handlers that use it *)

Module Lifecycle.

(** The health request of [waitForBackend] and of the health query
    resolves on status 200 and rejects on anything else. *)
Definition accepted (r : Supervisor.ProbeResult) : bool :=
  match r with
  | Supervisor.Responded statusCode => (statusCode =? 200)%Z
  | _ => false
  end.

(** What a call of [waitForBackend] did: its result, the health requests
    it made and the one-second pauses it took. *)
Record Waited : Type := {
  ready : bool;
  requests : nat;
  pauses : nat;
}.

(** The loop of [waitForBackend] from iteration [i] with [remaining]
    iterations to go; [probe k] is how the request of iteration [k]
    ends. *)
Fixpoint wait_loop (probe : nat → Supervisor.ProbeResult) (i remaining : nat)
  : Waited :=
  match remaining with
  | O => {| ready := false; requests := 0; pauses := 0 |}
  | S n =>
      if accepted (probe i) then {| ready := true; requests := 1; pauses := 0 |}
      else
        let w := wait_loop probe (S i) n in
        {| ready := ready w; requests := S (requests w); pauses := S (pauses w) |}
  end.

Definition waitForBackend (probe : nat → Supervisor.ProbeResult) (maxAttempts : nat)
  : Waited :=
  wait_loop probe 0 maxAttempts.

(** The default of the [maxAttempts] parameter. *)
Definition default_attempts : nat := 30.

(** What [app.whenReady()] ends with. *)
Inductive AppAction : Type :=
| CreateWindow
| AppQuit.

(** The body of the [app.whenReady()] callback, given how [startBackend]
    settled. *)
Definition on_app_ready (outcome : Supervisor.Outcome)
    (probe : nat → Supervisor.ProbeResult) : AppAction :=
  match outcome with
  | Supervisor.Ready =>
      if ready (waitForBackend probe default_attempts) then CreateWindow else AppQuit
  | Supervisor.Failed _ => AppQuit
  end.

(** The body of the [activate] handler, the other caller of
    [createWindow]; [open_windows] is
    [BrowserWindow.getAllWindows().length]. [None]: nothing is done. *)
Definition on_activate (open_windows : nat) : option AppAction :=
  if (open_windows =? 0)%nat then Some CreateWindow else None.

(** The reply of the [restart-backend] handler. *)
Record RestartReply : Type := {
  success : bool;
  error : option string;
}.

Definition ipc_restart_backend (outcome : Supervisor.Outcome)
    (probe : nat → Supervisor.ProbeResult) : RestartReply :=
  match outcome with
  | Supervisor.Ready =>
      {| success := ready (waitForBackend probe default_attempts); error := None |}
  | Supervisor.Failed message => {| success := false; error := Some message |}
  end.

(** A backend that answers the third request. *)
Definition third_time_lucky (k : nat) : Supervisor.ProbeResult :=
  if (k <? 2)%nat then Supervisor.ConnectionError else Supervisor.Responded 200.

End Lifecycle.

(** ** Observations on whole sessions *)

Module SessionHistory.
Import Supervisor.

(** The chunks delivered to attempt [i] on one stream, in order. *)
Definition stdout_of (i : nat) (evs : list Event) : list string :=
  omap (fun e => match e with
                 | At j (StdoutData output) => if (i =? j)%nat then Some output else None
                 | _ => None
                 end) evs.

Definition stderr_of (i : nat) (evs : list Event) : list string :=
  omap (fun e => match e with
                 | At j (StderrData output) => if (i =? j)%nat then Some output else None
                 | _ => None
                 end) evs.

(** The chunks delivered to attempt [i] on either stream. *)
Definition chunks_of (i : nat) (evs : list Event) : list string :=
  omap (fun e => match e with
                 | At j (StdoutData output) | At j (StderrData output) =>
                     if (i =? j)%nat then Some output else None
                 | _ => None
                 end) evs.

(** Some chunk contains [needle]. *)
Definition mentions (needle : string) (chunks : list string) : bool :=
  existsb (fun output => includes output needle) chunks.

Definition is_spawned (f : Effect) : bool :=
  match f with Spawned _ => true | _ => false end.

Definition is_aborted (f : Effect) : bool :=
  match f with Aborted => true | _ => false end.

Definition is_forced (e : Event) : bool :=
  match e with IpcRestartBackend => true | _ => false end.

(** Children spawned, launches given up before [spawn], and restarts
    asked for by the front end. *)
Definition spawns (fx : list Effect) : nat := count is_spawned fx.
Definition aborts (fx : list Effect) : nat := count is_aborted fx.
Definition forced (evs : list Event) : nat := count is_forced evs.

Definition pending_starts (s : Session) : nat := scheduledStarts (globals s).

Definition is_deadline_get (c : Call) : bool :=
  match c with HealthGet DeadlineProbe => true | _ => false end.

Definition is_health_get (c : Call) : bool :=
  match c with HealthGet _ => true | _ => false end.

(** Health requests issued by the 30 s callback of attempt [i], and by
    any callback of it. *)
Definition deadline_probes (i : nat) (fx : list Effect) : nat :=
  count is_deadline_get (calls_of i fx).

Definition health_requests (i : nat) (fx : list Effect) : nat :=
  count is_health_get (calls_of i fx).

Definition ready_flag (a : Attempt) : nat := b2n (backendReady a).

(** The front end forces a restart while the first attempt is starting;
    the backend then prints on both streams. *)
Definition chatty_start : list Event :=
  [At 0 (StdoutData "INFO:     Started server process [4242]");
   At 0 (StderrData "INFO  [alembic.runtime.migration] Context impl SQLiteImpl.");
   At 0 DeadlineFires;
   At 0 (StdoutData uvicorn_line);
   At 0 (ProbeDone DeadlineProbe (Responded 200));
   At 0 (StderrData "INFO:     127.0.0.1:51234 - GET /health HTTP/1.1 200 OK")].

(** The session once the first child has been spawned. *)
Definition first_spawn : Session := exec init [Spawn].

End SessionHistory.

(** ** The build scripts *)

Module BuildScripts.

(** What the scripts do to the machine they run on. The body of
    [resolveSymlinksInDir] and of [downloadFile] is not modelled: a call
    of either is one operation that succeeds or fails. *)
Inductive Op : Type :=
| ExecSync (command : string)
| MkdirSync (dir : string)
| RmSync (dir : string)
| ResolveSymlinksInDir (dir : string)
| DownloadFile (url dest : string).

(** The machine: the platform and architecture Node reports, the
    directory above the script's own, and how every operation ends on a
    given disk: the disk afterwards, and the message of the error it
    throws or rejects with, if any. *)
Record Machine : Type := {
  PLATFORM : PortReclaimer.Platform;
  ARCH : string;
  projectDir : string;
  effect : Op → Resolver.Disk → Resolver.Disk * option string;
}.

(** A run so far: the disk, and the operations performed with the error
    each one ended with. *)
Record Run : Type := {
  files : Resolver.Disk;
  performed : list (Op * option string);
}.

(** How a script stops early: [process.exit(1)] after [console.error],
    or an exception that leaves the [async] function. *)
Inductive Stop : Type :=
| Exits (message : string)
| Rejects (message : string).

Definition Script (A : Type) : Type := Run → Run * (A + Stop).

Definition done {A} (a : A) : Script A := fun r => (r, inl a).

Definition and_then {A B} (c : Script A) (k : A → Script B) : Script B :=
  fun r => match c r with
           | (r', inl a) => k a r'
           | (r', inr stop) => (r', inr stop)
           end.

#[local] Instance script_ret : MRet Script := @done.
#[local] Instance script_bind : MBind Script := fun A B k c => and_then c k.

(** [error(message)]: the script's own, which ends the process. *)
Definition error {A} (message : string) : Script A :=
  fun r => (r, inr (Exits message)).

Definition throw {A} (message : string) : Script A :=
  fun r => (r, inr (Rejects message)).

Definition existsSync (p : string) : Script bool :=
  fun r => (r, inl (Resolver.present (files r) p)).

(** One operation; the result is the error it ended with. *)
Definition perform (m : Machine) (op : Op) : Script (option string) :=
  fun r => let '(d, e) := effect m op (files r) in
           ({| files := d; performed := performed r ++ [(op, e)] |}, inl e).

(** An operation outside every [try]. *)
Definition unguarded (m : Machine) (op : Op) : Script unit :=
  e ← perform m op;
  match e with
  | None => done tt
  | Some message => throw message
  end.

(** [try { op } catch (err) { handler(err.message) }] *)
Definition guarded (m : Machine) (op : Op) (handler : string → Script unit)
  : Script unit :=
  e ← perform m op;
  match e with
  | None => done tt
  | Some message => handler message
  end.

Definition ensureDir (m : Machine) (dir : string) : Script unit :=
  there ← existsSync dir;
  if (there : bool) then done tt else unguarded m (MkdirSync dir).

Definition join (m : Machine) (segments : list string) : string :=
  Resolver.path_join (PLATFORM m) segments.

Definition BACKEND_DIR (m : Machine) : string := join m [projectDir m; "backend"].
Definition BUILD_DIR (m : Machine) : string := join m [projectDir m; "build"].
Definition BUNDLED_VENV_DIR (m : Machine) : string := join m [BUILD_DIR m; "bundled-venv"].

Definition pythonCmd (m : Machine) : string :=
  if Resolver.is_win32 (PLATFORM m) then "python" else "python3".

Definition pip_of (m : Machine) (venv : string) : string :=
  if Resolver.is_win32 (PLATFORM m)
  then join m [venv; "Scripts"; "pip.exe"]
  else join m [venv; "bin"; "pip"].

Definition python_of (m : Machine) (venv : string) : string :=
  if Resolver.is_win32 (PLATFORM m)
  then join m [venv; "Scripts"; "python.exe"]
  else join m [venv; "bin"; "python"].

(** *** build-standalone-backend.js *)

Definition requirementsPath (m : Machine) : string :=
  join m [BACKEND_DIR m; "requirements.txt"].

Definition which_python (m : Machine) : string := "which " +:+ pythonCmd m.
Definition python_version (m : Machine) : string := pythonCmd m +:+ " --version".

Definition create_venv (m : Machine) : string :=
  pythonCmd m +:+ " -m venv " +:+ Resolver.quoted (BUNDLED_VENV_DIR m).

Definition upgrade_pip (m : Machine) : string :=
  Resolver.quoted (pip_of m (BUNDLED_VENV_DIR m))
    +:+ " install --upgrade pip wheel setuptools".

Definition install_pillow (m : Machine) : string :=
  Resolver.quoted (pip_of m (BUNDLED_VENV_DIR m))
    +:+ " install --only-binary=Pillow " +:+ Resolver.quoted "Pillow>=10.0.0".

Definition install_requirements (m : Machine) : string :=
  Resolver.quoted (pip_of m (BUNDLED_VENV_DIR m))
    +:+ " install -r " +:+ Resolver.quoted (requirementsPath m)
    +:+ " --prefer-binary --no-cache-dir".

Definition verify_packages (m : Machine) : string :=
  Resolver.quoted (python_of m (BUNDLED_VENV_DIR m)) +:+ " -c "
    +:+ Resolver.quoted
          "import uvicorn; import fastapi; import sqlalchemy; import pydantic".

Definition python_not_found : string :=
  "Python not found. Please install Python 3.9+ first.".

Definition pillow_message : string :=
  "Pillow could not be installed from a pre-built wheel for this Python/platform. "
    +:+ "On macOS install system libs then retry: brew install libjpeg zlib".

Definition buildBundledVenv (m : Machine) : Script unit :=
  ensureDir m (BUILD_DIR m) ;;
  old ← existsSync (BUNDLED_VENV_DIR m);
  (if (old : bool) then unguarded m (RmSync (BUNDLED_VENV_DIR m)) else done tt) ;;
  guarded m (ExecSync (which_python m)) (fun _ => error python_not_found) ;;
  guarded m (ExecSync (python_version m)) (fun _ => error python_not_found) ;;
  found ← existsSync (requirementsPath m);
  (if (found : bool) then done tt
   else error ("Requirements file not found: " +:+ requirementsPath m)) ;;
  guarded m (ExecSync (create_venv m))
    (fun message => error ("Failed to create venv: " +:+ message)) ;;
  guarded m (ExecSync (upgrade_pip m))
    (fun message => error ("Failed to upgrade pip: " +:+ message)) ;;
  guarded m (ExecSync (install_pillow m)) (fun _ => error pillow_message) ;;
  guarded m (ExecSync (install_requirements m))
    (fun message => error ("Failed to install dependencies: " +:+ message)) ;;
  guarded m (ExecSync (verify_packages m))
    (fun message => error ("Verification failed: " +:+ message)) ;;
  if Resolver.is_darwin (PLATFORM m)
  then unguarded m (ResolveSymlinksInDir (BUNDLED_VENV_DIR m))
  else done tt.

(** [fn().catch((err) => { error(err.message); })], the script run
    directly: [None] is a run that ends by itself, with exit status 0,
    [Some message] one that [error] ends with status 1. *)
Definition main (fn : Script unit) (r : Run) : Run * option string :=
  match fn r with
  | (r', inl _) => (r', None)
  | (r', inr (Exits message)) => (r', Some message)
  | (r', inr (Rejects message)) => (r', Some message)
  end.

(** The shell commands of the build, in the order of the script. *)
Definition build_commands (m : Machine) : list string :=
  [which_python m; python_version m; create_venv m; upgrade_pip m;
   install_pillow m; install_requirements m; verify_packages m].

(** The shell commands among the operations performed. *)
Definition commands_of (ops : list (Op * option string)) : list string :=
  omap (fun x => match x.1 with ExecSync command => Some command | _ => None end) ops.

Definition failed (x : Op * option string) : bool :=
  match x.2 with Some _ => true | None => false end.

(** *** The script that prepares the Python bundle *)

Definition PYTHON_VERSION : string := "3.11.9".

Definition PYTHON_BUNDLE_DIR (m : Machine) : string :=
  join m [BUILD_DIR m; "python-bundle"].

Definition embeddableUrl (m : Machine) : string :=
  "https://www.python.org/ftp/python/" +:+ PYTHON_VERSION +:+ "/python-"
    +:+ PYTHON_VERSION +:+ "-embed-"
    +:+ (if String.eqb (ARCH m) "x64" then "amd64" else "win32") +:+ ".zip".

Definition bundle_venv (m : Machine) : string := join m [PYTHON_BUNDLE_DIR m; "venv"].

Definition bundle_create_venv (m : Machine) : string :=
  pythonCmd m +:+ " -m venv " +:+ Resolver.quoted (bundle_venv m).

Definition bundle_upgrade_pip (m : Machine) : string :=
  Resolver.quoted (pip_of m (bundle_venv m)) +:+ " install --upgrade pip".

Definition bundle_install_requirements (m : Machine) : string :=
  Resolver.quoted (pip_of m (bundle_venv m)) +:+ " install -r "
    +:+ Resolver.quoted (requirementsPath m) +:+ " --prefer-binary".

(** [try { a; b; c } catch (err) { handler(err.message) }] for
    operations that are tried one after the other. *)
Fixpoint guarded_all (m : Machine) (ops : list Op) (handler : string → Script unit)
  : Script unit :=
  match ops with
  | [] => done tt
  | op :: rest =>
      e ← perform m op;
      match e with
      | None => guarded_all m rest handler
      | Some message => handler message
      end
  end.

Definition preparePythonBundle (m : Machine) : Script unit :=
  ensureDir m (BUILD_DIR m) ;;
  ensureDir m (PYTHON_BUNDLE_DIR m) ;;
  match PLATFORM m with
  | PortReclaimer.Darwin =>
      let python_missing message :=
        error ("Python 3 not found. Please install Python 3.9+: " +:+ message) in
      guarded m (ExecSync "python3 --version") python_missing ;;
      guarded m (ExecSync "which python3") python_missing ;;
      there ← existsSync (join m [PYTHON_BUNDLE_DIR m; "bin"]);
      if (there : bool) then done tt
      else guarded m (MkdirSync (join m [PYTHON_BUNDLE_DIR m; "bin"])) python_missing
  | PortReclaimer.Win32 =>
      guarded m (DownloadFile (embeddableUrl m)
                   (join m [PYTHON_BUNDLE_DIR m; "python-embed.zip"]))
        (fun _ => done tt)
  | PortReclaimer.Linux => done tt
  end ;;
  found ← existsSync (requirementsPath m);
  (if (found : bool) then done tt
   else error ("Requirements file not found: " +:+ requirementsPath m)) ;;
  guarded_all m [ExecSync (bundle_create_venv m);
                 ExecSync (bundle_upgrade_pip m);
                 ExecSync (bundle_install_requirements m)]
    (fun message => error ("Failed to create venv: " +:+ message)).

Definition bundle_commands (m : Machine) : list string :=
  [bundle_create_venv m; bundle_upgrade_pip m; bundle_install_requirements m].

Definition is_download (x : Op * option string) : bool :=
  match x.1 with DownloadFile _ _ => true | _ => false end.

Definition fresh (d : Resolver.Disk) : Run := {| files := d; performed := [] |}.

End BuildScripts.

(** * Properties *)

(** ** The license contract *)

Module LicenseFacts.
Import License.

Lemma space_is_not_digit (c : ascii) : is_space c = true → is_digit c = false.
Proof.
  destruct c as [[] [] [] [] [] [] [] []]; vm_compute; congruence.
Qed.

Lemma strip_trim_start (s : string) :
  strip_non_digits (trim_start s) = strip_non_digits s.
Proof.
  induction s as [|c s IH]; [reflexivity|]. simpl.
  destruct (is_space c) eqn:Hc; [|reflexivity].
  rewrite (space_is_not_digit c Hc). exact IH.
Qed.

Lemma strip_trim_end (s : string) :
  strip_non_digits (trim_end s) = strip_non_digits s.
Proof.
  induction s as [|c s IH]; [reflexivity|]. simpl.
  destruct (trim_end s) as [|d r] eqn:Hr.
  - destruct (is_space c) eqn:Hc.
    + rewrite (space_is_not_digit c Hc). exact IH.
    + simpl. rewrite <- IH. reflexivity.
  - simpl in *. rewrite IH. reflexivity.
Qed.

(** Trimming never changes what a key normalizes to. *)
Lemma strip_trim (s : string) : strip_non_digits (trim s) = strip_non_digits s.
Proof. unfold trim. rewrite strip_trim_end. apply strip_trim_start. Qed.

Lemma strip_idempotent (s : string) :
  strip_non_digits (strip_non_digits s) = strip_non_digits s.
Proof.
  induction s as [|c s IH]; [reflexivity|]. simpl.
  destruct (is_digit c) eqn:Hc; [|exact IH].
  simpl. rewrite Hc, IH. reflexivity.
Qed.

Lemma validateLicense_spec (k : string) :
  validateLicense k = true ↔ strip_non_digits k = VALID_LICENSE_KEY.
Proof. unfold validateLicense. apply String.eqb_eq. Qed.

Lemma validateLicense_normalized (k : string) :
  validateLicense (strip_non_digits k) = validateLicense k.
Proof. unfold validateLicense. rewrite strip_idempotent. reflexivity. Qed.

Lemma validateLicense_trim (k : string) : validateLicense (trim k) = validateLicense k.
Proof. unfold validateLicense. rewrite strip_trim. reflexivity. Qed.

(** [storeLicenseKey] returns a boolean whatever the file system does. *)
Lemma storeLicenseKey_never_throws (fs : FileSystem) (rawKey : string) :
  ∃ fs' b, storeLicenseKey fs rawKey = Normal (fs', b).
Proof.
  unfold storeLicenseKey, writeFileSync.
  destruct (validateLicense _); [|by eauto].
  destruct (write_fails fs); simpl; eauto.
Qed.

(** A key that does not normalize to the reference is refused and the
    file is left alone, also when the file system is faulty. *)
Lemma storeLicenseKey_invalid (fs : FileSystem) (rawKey : string) :
  strip_non_digits rawKey ≠ VALID_LICENSE_KEY →
  storeLicenseKey fs rawKey = Normal (fs, false).
Proof.
  intros Hne. unfold storeLicenseKey. rewrite validateLicense_normalized.
  destruct (validateLicense rawKey) eqn:Hv; [|reflexivity].
  apply validateLicense_spec in Hv. contradiction.
Qed.

(** A failing write is caught and reported as [false]. *)
Lemma storeLicenseKey_write_error (fs : FileSystem) (rawKey : string) :
  write_fails fs = true → storeLicenseKey fs rawKey = Normal (fs, false).
Proof.
  intros Hw. unfold storeLicenseKey, writeFileSync. rewrite Hw.
  destruct (validateLicense _); reflexivity.
Qed.

(** C8. For every raw key and every state of the file system,
    [store-license] returns a boolean and never throws. When it returns
    [true], the key with every non-digit removed equals the reference
    ["95001958328698042535"] and that normalized key is what the license
    file holds; when it returns [false], the file system is as it was.
    While the license file can be written, it returns [true] exactly when
    the normalized key equals the reference. ["9500-1958-328698042535"]
    normalizes to the reference and validates, ["00000000000000000000"]
    does not validate. *)
Theorem store_license_iff_reference (fs : FileSystem) (rawKey : string) :
  (∃ fs' b,
      ipc_store_license fs rawKey = Normal (fs', b)
      ∧ (b = true →
         strip_non_digits rawKey = VALID_LICENSE_KEY
         ∧ licenseFile fs' = Some (strip_non_digits rawKey))
      ∧ (b = false → fs' = fs)
      ∧ (write_fails fs = false →
         (b = true ↔ strip_non_digits rawKey = VALID_LICENSE_KEY)))
  ∧ strip_non_digits "9500-1958-328698042535" = "95001958328698042535"
  ∧ validateLicense "9500-1958-328698042535" = true
  ∧ validateLicense "00000000000000000000" = false.
Proof.
  split; [|by vm_compute].
  unfold ipc_store_license, storeLicenseKey, writeFileSync.
  rewrite validateLicense_normalized.
  destruct (validateLicense rawKey) eqn:Hv; simpl.
  - apply validateLicense_spec in Hv.
    destruct (write_fails fs) eqn:Hw; simpl.
    + exists fs, false. split; [reflexivity|].
      repeat split; auto; discriminate.
    + eexists _, true. split; [reflexivity|]. simpl.
      repeat split; auto; discriminate.
  - exists fs, false. split; [reflexivity|].
    assert (Hne : strip_non_digits rawKey ≠ VALID_LICENSE_KEY).
    { intros Heq. apply validateLicense_spec in Heq. congruence. }
    repeat split; auto; try discriminate; try contradiction.
Qed.

Lemma store_license_iff_reference_witness :
  write_fails blank_fs = false
  ∧ ∃ fs', ipc_store_license blank_fs "9500-1958-328698042535" = Normal (fs', true)
           ∧ licenseFile fs' = Some "95001958328698042535".
Proof.
  split; [reflexivity|].
  destruct (store_license_iff_reference blank_fs "9500-1958-328698042535")
    as [(fs' & b & Hrun & Htrue & _ & Hiff) _].
  assert (Hb : b = true) by (apply (Hiff eq_refl); reflexivity).
  subst b. exists fs'. split; [exact Hrun|]. apply (Htrue eq_refl).
Defined.

(** C10. When [store-license] has returned [true], a [check-license] on
    the file system it left behind returns [true], provided the file can
    be read: the file holds the normalized key, and [getStoredLicense]
    validates the trimmed content against the same reference. *)
Theorem store_then_check_license (fs fs' : FileSystem) (rawKey : string) :
  ipc_store_license fs rawKey = Normal (fs', true) →
  read_fails fs' = false →
  ipc_check_license fs' = Normal true.
Proof.
  unfold ipc_store_license, storeLicenseKey, writeFileSync.
  destruct (validateLicense (strip_non_digits rawKey)) eqn:Hv; [|discriminate].
  destruct (write_fails fs); simpl; [discriminate|].
  intros [= <-] Hr. simpl in Hr.
  unfold ipc_check_license, getStoredLicense, existsSync, readFileSync. simpl.
  rewrite Hr. simpl.
  rewrite validateLicense_trim, Hv. reflexivity.
Qed.

Lemma store_then_check_license_witness :
  ipc_store_license blank_fs "9500 1958 3286 9804 2535"
    = Normal ({| licenseFile := Some "95001958328698042535";
                 write_fails := false; read_fails := false |}, true)
  ∧ ipc_check_license {| licenseFile := Some "95001958328698042535";
                         write_fails := false; read_fails := false |}
    = Normal true.
Proof.
  split; [reflexivity|].
  apply (store_then_check_license blank_fs _ "9500 1958 3286 9804 2535");
    reflexivity.
Defined.

End LicenseFacts.

(** ** The environment of the child process *)

Module ChildEnvFacts.
Import ChildEnv.

Section RemoveUndefined.

Lemma drop_lookup (e : gmap string (option string)) (key k : string) :
  drop_undefined e key !! k = if decide (k = key) then defined_only (e !! k) else e !! k.
Proof.
  unfold drop_undefined. case_bool_decide as Hu; case_decide as Hk; subst.
  - rewrite lookup_delete_eq, Hu. reflexivity.
  - rewrite lookup_delete_ne by congruence. reflexivity.
  - destruct (e !! key) as [[v|]|]; simpl; congruence.
  - reflexivity.
Qed.

Lemma defined_only_idem (o : option (option string)) :
  defined_only (defined_only o) = defined_only o.
Proof. destruct o as [[v|]|]; reflexivity. Qed.

Lemma foldl_drop_lookup (keys : list string) :
  ∀ (e : gmap string (option string)) (k : string),
    foldl drop_undefined e keys !! k
    = if decide (k ∈ keys) then defined_only (e !! k) else e !! k.
Proof.
  induction keys as [|key keys IH]; intros e k.
  - reflexivity.
  - change (foldl drop_undefined e (key :: keys)) with (foldl drop_undefined (drop_undefined e key) keys).
    rewrite IH, drop_lookup.
    destruct (decide (k = key)) as [->|Hne].
    + rewrite (decide_True (P := key ∈ key :: keys))
        by (apply elem_of_cons; by left).
      case_decide; [apply defined_only_idem | reflexivity].
    + destruct (decide (k ∈ keys)) as [Hin|Hin].
      * rewrite (decide_True (P := k ∈ key :: keys))
          by (apply elem_of_cons; by right).
        reflexivity.
      * rewrite (decide_False (P := k ∈ key :: keys)); [reflexivity|].
        intros [?|?]%elem_of_cons; contradiction.
Qed.

(** The clean-up loop removes exactly the properties that hold
    [undefined]. *)
Lemma remove_undefined_lookup (env : gmap string (option string)) (k : string) :
  remove_undefined env !! k = defined_only (env !! k).
Proof.
  unfold remove_undefined. rewrite foldl_drop_lookup.
  case_decide as Hin; [reflexivity|].
  rewrite elem_of_elements, elem_of_dom in Hin.
  destruct (env !! k) as [v|] eqn:Hk; [|reflexivity].
  exfalso. apply Hin. eauto.
Qed.

End RemoveUndefined.

Lemma child_env_defined dev darwin dir_exists penv p (k : string) :
  child_env dev darwin dir_exists penv p !! k ≠ Some None.
Proof.
  unfold child_env. rewrite remove_undefined_lookup.
  destruct (env_literal _ _ _ _ _ !! k) as [[v|]|]; simpl; congruence.
Qed.

Lemma child_env_log_dir dev darwin dir_exists penv p :
  child_env dev darwin dir_exists penv p !! "BILLTRIM_LOG_DIR"
  = Some (Some (logsDir p)).
Proof.
  unfold child_env, env_literal.
  rewrite remove_undefined_lookup, lookup_insert_eq. reflexivity.
Qed.

(** C9, as the code has it. In the environment passed to the child no
    variable holds an undefined value: such a variable is absent. The
    database path and the upload directory are injected in packaged mode
    alone and are absent in development mode, even when the parent
    environment defines them; the log directory is injected in both
    modes. *)
Theorem child_env_overrides dev darwin dir_exists penv p :
  let env := child_env dev darwin dir_exists penv p in
  (∀ k : string, env !! k ≠ Some None)
  ∧ env !! "DATABASE_PATH"
    = (if dev then None else Some (Some (path_join (dataDir p) "billtrim.db")))
  ∧ env !! "UPLOAD_DIR" = (if dev then None else Some (Some (uploadsDir p)))
  ∧ env !! "BILLTRIM_LOG_DIR" = Some (Some (logsDir p)).
Proof.
  cbv zeta. split; [intros k; apply child_env_defined|].
  split; [|split; [|apply child_env_log_dir]].
  - unfold child_env, env_literal. rewrite remove_undefined_lookup.
    rewrite lookup_insert_ne by done. rewrite lookup_insert_ne by done.
    rewrite lookup_insert_eq. by destruct dev.
  - unfold child_env, env_literal. rewrite remove_undefined_lookup.
    rewrite lookup_insert_ne by done. rewrite lookup_insert_eq.
    by destruct dev.
Qed.

(** C9, as specified, fails for the log directory: in development
    mode the child still receives [BILLTRIM_LOG_DIR]. *)
Lemma log_dir_injected_in_development :
  ¬ (∀ penv p,
        let env := child_env true false (fun _ => false) penv p in
        env !! "DATABASE_PATH" = None
        ∧ env !! "UPLOAD_DIR" = None
        ∧ env !! "BILLTRIM_LOG_DIR" = None).
Proof.
  intros H. destruct (H ∅ sample_paths) as (_ & _ & Hlog).
  rewrite child_env_log_dir in Hlog. discriminate.
Qed.

End ChildEnvFacts.

(** ** The port reclaimer *)

Module PortReclaimerFacts.
Import PortReclaimer.

Lemma parse_pids_blank (stdout : string) :
  trim stdout = EmptyString → parse_pids stdout = [].
Proof. unfold parse_pids. intros ->. reflexivity. Qed.

(** Every listed process is named in the kill command, and that command
    has completed when [spawn] is called. *)
Lemma signals_precede_spawn pf listing list_ms killError kill_ms prep_ms :
  exec_error listing = false →
  parse_pids (exec_stdout listing) ≠ [] →
  let r := killExistingBackend pf listing list_ms killError kill_ms in
  commands r = [(0, list_command pf);
                (list_ms, kill_command pf (parse_pids (exec_stdout listing)))]
  ∧ ∃ t, spawn_time r prep_ms = Some t ∧ (list_ms + kill_ms ≤ t)%nat.
Proof.
  intros He Hp. cbv zeta. unfold killExistingBackend. rewrite He. simpl.
  destruct (trim (exec_stdout listing)) as [|c w] eqn:Ht.
  { exfalso. apply Hp. by apply parse_pids_blank. }
  simpl. destruct (parse_pids (exec_stdout listing)) as [|pid pids] eqn:Hpids;
    [contradiction|]. simpl.
  split; [reflexivity|].
  unfold spawn_time, settled_at. simpl.
  destruct killError; simpl; eexists; (split; [reflexivity|]); lia.
Qed.

(** C6 on the code. When processes hold the port and the kill command
    succeeds, the callback arms the one-second timer and then calls
    [resolve] at once: the reclaimer's promise settles when the kill
    command completes, with no grace period, and [spawn] can follow
    immediately. *)
Theorem reclaimer_returns_without_grace pf listing list_ms kill_ms :
  exec_error listing = false →
  parse_pids (exec_stdout listing) ≠ [] →
  let r := killExistingBackend pf listing list_ms false kill_ms in
  resolve_calls r = [list_ms + kill_ms + 1000; list_ms + kill_ms]
  ∧ settled_at r = Some (list_ms + kill_ms)
  ∧ spawn_time r 0 = Some (list_ms + kill_ms).
Proof.
  intros He Hp. cbv zeta. unfold killExistingBackend. rewrite He. simpl.
  destruct (trim (exec_stdout listing)) as [|c w] eqn:Ht.
  { exfalso. apply Hp. by apply parse_pids_blank. }
  simpl. destruct (parse_pids (exec_stdout listing)) as [|pid pids] eqn:Hpids;
    [contradiction|]. simpl.
  unfold spawn_time, settled_at. simpl.
  rewrite Nat.min_l by lia. rewrite Nat.add_0_r. auto.
Qed.

Lemma reclaimer_returns_without_grace_witness :
  exec_error two_pids = false
  ∧ parse_pids (exec_stdout two_pids) = ["123"; "456"]
  ∧ commands (killExistingBackend Darwin two_pids 40 false 15)
    = [(0, "lsof -ti:8765"); (40, "kill -9 123 456")]
  ∧ settled_at (killExistingBackend Darwin two_pids 40 false 15) = Some 55.
Proof.
  split; [reflexivity|]. split; [reflexivity|]. split; [reflexivity|].
  apply (reclaimer_returns_without_grace Darwin two_pids 40 15);
    [reflexivity | discriminate].
Defined.

End PortReclaimerFacts.

(** ** The supervisor *)

Module SupervisorFacts.
Import Supervisor.

#[local] Set Warnings "-clear-no-such-hyp".
#[local] Arguments includes : simpl never.
#[local] Arguments join_lines : simpl never.
#[local] Arguments pretty : simpl never.

Ltac unfold_handlers :=
  unfold react, on_stdout, on_stderr, on_debounce, on_probe_done, on_error,
    on_exit, on_deadline, resolveWithCleanup, schedule_health_check,
    track_progress, settle.

(** Case analysis on every branch a callback can take. *)
Ltac run_handlers :=
  unfold_handlers; simpl; repeat case_match; simplify_eq/=.

Ltac handler_cases e :=
  destruct e as [?output|?output| |[] [?status| |]| |?st|?message];
  run_handlers.

(** Split the boolean guards met on the way and use what they say. *)
Ltac bools :=
  repeat match goal with
    | H : _ && _ = true |- _ => apply andb_true_iff in H as [? ?]
    | H : _ && _ = false |- _ => apply andb_false_iff in H as [?|?]
    | H : negb _ = true |- _ => apply negb_true_iff in H
    | H : negb _ = false |- _ => apply negb_false_iff in H
    | H : _ || _ = false |- _ => apply orb_false_iff in H as [? ?]
    end;
  try congruence;
  repeat match goal with
    | H : _ = true |- _ => rewrite H
    | H : _ = false |- _ => rewrite H
    end.

(** *** Runs and traces *)

Lemma exec_app s evs1 evs2 : exec s (evs1 ++ evs2) = exec (exec s evs1) evs2.
Proof. revert s. induction evs1 as [|e evs1 IH]; intros s; simpl; auto. Qed.


Lemma count_app {A} (p : A → bool) (l1 l2 : list A) :
  count p (l1 ++ l2) = count p l1 + count p l2.
Proof. unfold count. rewrite List.filter_app, length_app. reflexivity. Qed.

Lemma calls_of_app i fx1 fx2 : calls_of i (fx1 ++ fx2) = calls_of i fx1 ++ calls_of i fx2.
Proof. unfold calls_of. apply omap_app. Qed.

Lemma calls_of_cons i f fx :
  calls_of i (f :: fx)
  = match f with
    | On j c => if (i =? j)%nat then c :: calls_of i fx else calls_of i fx
    | _ => calls_of i fx
    end.
Proof.
  unfold calls_of. destruct f as [j c| | |]; simpl; try reflexivity.
  destruct (i =? j)%nat; reflexivity.
Qed.

Lemma calls_of_same i cs : calls_of i (On i <$> cs) = cs.
Proof.
  induction cs as [|c cs IH]; [reflexivity|].
  rewrite fmap_cons, calls_of_cons, Nat.eqb_refl, IH. reflexivity.
Qed.

Lemma calls_of_other i j cs : i ≠ j → calls_of i (On j <$> cs) = [].
Proof.
  intros Hne. induction cs as [|c cs IH]; [reflexivity|].
  rewrite fmap_cons, calls_of_cons.
  destruct (Nat.eqb_spec i j); [contradiction|]. exact IH.
Qed.

Lemma step_at s i ae a :
  attempts s !! i = Some a → enabled a ae = true →
  step s (At i ae)
  = ({| globals := (react (current_child s) (globals s) a ae).1.1;
        backendProcess := backendProcess s;
        attempts :=
          <[i := (react (current_child s) (globals s) a ae).1.2]> (attempts s) |},
     On i <$> (react (current_child s) (globals s) a ae).2).
Proof.
  intros Ha Hen. simpl. rewrite Ha, Hen.
  destruct (react _ _ _ _) as [[g' a'] cs]. reflexivity.
Qed.

Lemma step_at_disabled s i ae a :
  attempts s !! i = Some a → enabled a ae = false → step s (At i ae) = (s, []).
Proof. intros Ha Hen. simpl. rewrite Ha, Hen. reflexivity. Qed.



(** A step either runs one callback of one attempt, or it is quiet. *)
Lemma step_cases s e :
  (∃ i ae a, e = At i ae ∧ attempts s !! i = Some a ∧ enabled a ae = true
     ∧ step s e
       = ({| globals := (react (current_child s) (globals s) a ae).1.1;
             backendProcess := backendProcess s;
             attempts :=
               <[i := (react (current_child s) (globals s) a ae).1.2]> (attempts s) |},
          On i <$> (react (current_child s) (globals s) a ae).2))
  ∨ (backendWasReady (globals (step s e).1) = backendWasReady (globals s)
     ∧ backendRestartCount (globals (step s e).1) = backendRestartCount (globals s)
     ∧ (∀ i, calls_of i (step s e).2 = [])
     ∧ restarts (step s e).2 = 0
     ∧ ∀ j, quiet_origin s j (attempts (step s e).1 !! j)).
Proof.
  assert (Hsame : ∀ j, quiet_origin s j (attempts s !! j)).
  { intros j. unfold quiet_origin. destruct (attempts s !! j); auto. }
  assert (Hkill : ∀ i j,
    quiet_origin s j (alter (fun a => set_child (kill (child a)) a) i (attempts s) !! j)).
  { intros i j. rewrite list_lookup_alter. case_decide as Hi; [subst|apply Hsame].
    unfold quiet_origin. destruct (attempts s !! j) as [a|]; simpl; eauto. }
  destruct e as [i ae| | | |]; simpl.
  - destruct (attempts s !! i) as [a|] eqn:Ha; [|right; by auto 10].
    destruct (enabled a ae) eqn:Hen; [|right; by auto 10].
    left. exists i, ae, a. destruct (react _ _ _ _) as [[g' a'] cs]. auto.
  - right. destruct (scheduledStarts (globals s)); simpl; [by auto 10|].
    repeat split; auto. intros j. unfold quiet_origin.
    destruct ((attempts s ++ [new_attempt]) !! j) as [b|] eqn:Hb.
    + apply lookup_snoc_Some in Hb as [(Hlt & Hj)|(-> & <-)]; [by auto|].
      right; left. split; [reflexivity|]. by apply lookup_ge_None_2.
    + apply lookup_ge_None in Hb. rewrite length_app in Hb.
      apply lookup_ge_None_2. lia.
  - right. destruct (scheduledStarts (globals s)); simpl; by auto 10.
  - right. unfold kill_current. destruct (backendProcess s); simpl; by auto 10.
  - right. unfold kill_current. destruct (backendProcess s); simpl; by auto 10.
Qed.

(** *** Invariants of every attempt *)

Section Invariant.

Variable P : Globals → Attempt → Prop.

(** [P] may read the two flags of the session, not the start count. *)
Hypothesis P_globals : ∀ g g' a,
    backendWasReady g' = backendWasReady g →
    backendRestartCount g' = backendRestartCount g →
    P g a → P g' a.
Hypothesis P_new : ∀ g, P g new_attempt.
Hypothesis P_react : ∀ bp g a e,
    P g a → P (react bp g a e).1.1 (react bp g a e).1.2.
Hypothesis P_frame : ∀ bp g a e b, P g b → P (react bp g a e).1.1 b.
Hypothesis P_child : ∀ g a c, P g a → P g (set_child c a).

Lemma step_holds s e : holds P s → holds P (step s e).1.
Proof.
  intros Hs j b Hb.
  destruct (step_cases s e)
    as [(i & ae & a & -> & Ha & Hen & Hstep)|(Hw & Hc & _ & _ & Hq)].
  - rewrite Hstep in Hb |- *. simpl in *.
    apply list_lookup_insert_Some in Hb as [(<- & <- & _)|(_ & Hb)].
    + apply P_react, (Hs i), Ha.
    + apply P_frame, (Hs j), Hb.
  - specialize (Hq j). rewrite Hb in Hq. simpl in Hq.
    destruct Hq as [Hold|[(-> & _)|(a & Ha & ->)]].
    + apply (P_globals (globals s)); auto. apply (Hs j), Hold.
    + apply P_new.
    + apply P_child. apply (P_globals (globals s)); auto. apply (Hs j), Ha.
Qed.

Lemma exec_holds evs : ∀ s, holds P s → holds P (exec s evs).
Proof.
  induction evs as [|e evs IH]; intros s Hs; simpl; [exact Hs|].
  apply IH, step_holds, Hs.
Qed.

Lemma reachable_holds evs : holds P (exec init evs).
Proof. apply exec_holds. intros i a Hi. discriminate. Qed.

End Invariant.

(** Once ready, always recorded: [resolveWithCleanup] sets both flags. *)
Lemma ready_implies_wasReady evs :
  holds (fun g a => backendReady a = true → backendWasReady g = true)
        (exec init evs).
Proof.
  apply reachable_holds.
  - intros g g' a Hw _ H Hr. rewrite Hw. auto.
  - intros g. discriminate.
  - intros bp g a e H. handler_cases e; auto; congruence.
  - intros bp g a e b H Hb. specialize (H Hb). handler_cases e; auto.
  - intros g a c H. exact H.
Qed.

(** The 30 s timer is armed only while [timeoutId] holds it, and never
    for an attempt that is ready. *)
Lemma ready_disarms_deadline evs :
  holds (fun _ a => (timeoutId a = false → deadlineTimer a = false)
                    ∧ (backendReady a = true → timeoutId a = false))
        (exec init evs).
Proof.
  apply reachable_holds.
  - auto.
  - intros g. split; discriminate.
  - intros bp g a e [H1 H2]. handler_cases e; split; auto; try congruence.
  - auto.
  - intros g a c H. exact H.
Qed.

(** A ready attempt has a settled promise. *)
Lemma ready_is_settled evs :
  holds (fun _ a => backendReady a = true → promise a ≠ Pending) (exec init evs).
Proof.
  apply reachable_holds.
  - auto.
  - intros g. discriminate.
  - intros bp g a e H. handler_cases e; auto; try congruence.
  - auto.
  - intros g a c H. exact H.
Qed.


(** *** Counting calls along a trace *)

Section Ledger.

(** The calls counted, and two quantities of an attempt such that
    every counted call raises [up] or lowers [down] by one; with
    [exact] nothing else changes them, without it [up] may also rise
    and [down] fall on their own. *)
Variable exact : bool.
Variable p : Call → bool.
Variables up down : Attempt → nat.

Hypothesis L_new : up new_attempt = 0 ∧ down new_attempt = 0.
Hypothesis L_child : ∀ c a,
    up (set_child c a) = up a ∧ down (set_child c a) = down a.
Hypothesis L_react : ∀ bp g a e,
    enabled a e = true →
    related exact
      (count p (react bp g a e).2 + up a + down (react bp g a e).1.2)
      (up (react bp g a e).1.2 + down a).

Lemma quiet_measure s j o (m : Attempt → nat) :
  m new_attempt = 0 → (∀ c a, m (set_child c a) = m a) →
  quiet_origin s j o → from_option m 0 o = measure_at m j s.
Proof.
  intros Hnew Hchild Hq. unfold measure_at.
  destruct o as [b|]; simpl in *.
  - destruct Hq as [->|[(-> & ->)|(a & -> & ->)]]; simpl; auto.
  - rewrite Hq. reflexivity.
Qed.

Lemma step_ledger s e i :
  related exact
    (count p (calls_of i (step s e).2) + measure_at up i s
     + measure_at down i (step s e).1)
    (measure_at up i (step s e).1 + measure_at down i s).
Proof.
  destruct (step_cases s e)
    as [(j & ae & a & -> & Ha & Hen & Hstep)|(_ & _ & Hcalls & _ & Hq)].
  - rewrite Hstep. simpl. unfold measure_at. simpl.
    destruct (decide (i = j)) as [->|Hne].
    + rewrite calls_of_same, Ha.
      rewrite list_lookup_insert_eq by (eapply lookup_lt_Some, Ha). simpl.
      apply L_react, Hen.
    + rewrite calls_of_other by exact Hne.
      rewrite list_lookup_insert_ne by congruence.
      unfold count, related. destruct exact; simpl; lia.
  - rewrite Hcalls. specialize (Hq i).
    unfold measure_at at 2 3.
    rewrite (quiet_measure s i _ up), (quiet_measure s i _ down);
      try exact Hq; try apply L_new; try (intros; apply L_child).
    unfold count, related. destruct exact; simpl; lia.
Qed.

Lemma trace_ledger evs : ∀ s i,
  related exact
    (count p (calls_of i (trace s evs)) + measure_at up i s
     + measure_at down i (exec s evs))
    (measure_at up i (exec s evs) + measure_at down i s).
Proof.
  induction evs as [|e evs IH]; intros s i; simpl.
  - unfold count, related. destruct exact; simpl; lia.
  - rewrite calls_of_app, count_app.
    pose proof (step_ledger s e i) as H1.
    pose proof (IH (step s e).1 i) as H2.
    unfold related in *. destruct exact; lia.
Qed.

End Ledger.

Lemma measure_zero i t : measure_at (fun _ => 0) i t = 0.
Proof. unfold measure_at. destruct (attempts t !! i); reflexivity. Qed.

Lemma measure_b2n_le (f : Attempt → bool) i t :
  measure_at (fun a => b2n (f a)) i t ≤ 1.
Proof.
  unfold measure_at. destruct (attempts t !! i) as [a|]; simpl; [|lia].
  destruct (f a); simpl; lia.
Qed.

Lemma react_arms bp g a e :
  enabled a e = true →
  related true
    (count is_arm_call (react bp g a e).2 + b2n (healthCheckScheduled a) + 0)
    (b2n (healthCheckScheduled (react bp g a e).1.2) + 0).
Proof. intros _. handler_cases e; bools; reflexivity. Qed.

(** Every 2 s timer armed sets [healthCheckScheduled], which is never
    reset. *)
Lemma arms_ledger s evs i :
  arms i (trace s evs) + measure_at (fun a => b2n (healthCheckScheduled a)) i s
  = measure_at (fun a => b2n (healthCheckScheduled a)) i (exec s evs).
Proof.
  assert (H := trace_ledger true is_arm_call
                 (fun a => b2n (healthCheckScheduled a)) (fun _ => 0)
                 (conj eq_refl eq_refl) (fun _ _ => conj eq_refl eq_refl)
                 react_arms evs s i).
  cbv beta in H. unfold related in H. rewrite !measure_zero in H.
  unfold arms. lia.
Qed.

Lemma react_marker_gets bp g a e :
  enabled a e = true →
  related false
    (count is_marker_get (react bp g a e).2 + b2n (healthCheckScheduled a)
     + debounceTimers (react bp g a e).1.2)
    (b2n (healthCheckScheduled (react bp g a e).1.2) + debounceTimers a).
Proof.
  intros Hen. unfold related.
  handler_cases e; bools; simpl; try lia.
  all: apply Nat.ltb_lt in Hen; unfold count; simpl; lia.
Qed.


(** *** The debounced health check (C5) *)







(** *** The restart budget (C2, C3) *)

Lemma react_restart_count bp g a e i :
  restarts (On i <$> (react bp g a e).2) + backendRestartCount g
  = backendRestartCount (react bp g a e).1.1.
Proof. handler_cases e; try reflexivity; unfold restarts, count; simpl; lia. Qed.

Lemma react_restart_bound bp g a e :
  backendRestartCount g ≤ 1 → backendRestartCount (react bp g a e).1.1 ≤ 1.
Proof.
  intros Hle. handler_cases e; try lia.
  match goal with
  | H : _ && (_ <? 1) = true |- _ =>
      apply andb_true_iff in H as [_ Hlt]; apply Nat.ltb_lt in Hlt; lia
  end.
Qed.

Lemma step_restart_count s e :
  restarts (step s e).2 + restartCount s = restartCount (step s e).1.
Proof.
  unfold restartCount.
  destruct (step_cases s e)
    as [(j & ae & a & -> & Ha & Hen & Hstep)|(_ & Hc & _ & Hr & _)].
  - rewrite Hstep. simpl. apply react_restart_count.
  - rewrite Hr, Hc. reflexivity.
Qed.

Lemma step_restart_bound s e :
  restartCount s ≤ 1 → restartCount (step s e).1 ≤ 1.
Proof.
  unfold restartCount. intros Hle.
  destruct (step_cases s e)
    as [(j & ae & a & -> & Ha & Hen & Hstep)|(_ & Hc & _ & Hr & _)].
  - rewrite Hstep. simpl. by apply react_restart_bound.
  - by rewrite Hc.
Qed.

Lemma trace_restart_count evs :
  ∀ s, restarts (trace s evs) + restartCount s = restartCount (exec s evs).
Proof.
  induction evs as [|e evs IH]; intros s; simpl; [reflexivity|].
  unfold restarts in *. rewrite count_app.
  rewrite <- IH, <- step_restart_count. unfold restarts. lia.
Qed.

Lemma exec_restart_bound evs :
  ∀ s, restartCount s ≤ 1 → restartCount (exec s evs) ≤ 1.
Proof.
  induction evs as [|e evs IH]; intros s Hle; simpl; [exact Hle|].
  apply IH, step_restart_bound, Hle.
Qed.

(** C2. Along every run of a session the restart counter stays at most 1
    and equals the number of automatic restarts scheduled so far; it
    never decreases, whatever follows; and once it is 1, no event, in
    particular no further non-zero exit, schedules a restart or changes
    it. *)
Theorem restart_budget (evs : list Event) :
  let s := exec init evs in
  restartCount s ≤ 1
  ∧ restarts (trace init evs) = restartCount s
  ∧ (∀ evs', restartCount s ≤ restartCount (exec s evs'))
  ∧ (restartCount s = 1 →
     ∀ e, restartCount (step s e).1 = 1 ∧ restarts (step s e).2 = 0).
Proof.
  cbv zeta.
  split; [apply exec_restart_bound; unfold restartCount; simpl; lia|].
  split; [rewrite <- trace_restart_count; unfold restartCount; simpl; lia|].
  split.
  - intros evs'. rewrite <- (trace_restart_count evs'). lia.
  - intros H1 e.
    pose proof (step_restart_count (exec init evs) e) as Hc.
    pose proof (step_restart_bound (exec init evs) e) as Hb.
    lia.
Qed.

Lemma restart_budget_witness :
  restartCount (exec init crash_after_ready) = 1
  ∧ restartCount
      (step (exec init crash_after_ready) (At 1 (ChildExit (ExitCode 1)))).1 = 1
  ∧ restarts
      (step (exec init crash_after_ready) (At 1 (ChildExit (ExitCode 1)))).2 = 0.
Proof.
  split; [reflexivity|].
  apply (restart_budget crash_after_ready). reflexivity.
Defined.

Lemma react_exit bp g a st :
  let re := react bp g a (ChildExit st) in
  (restarts (On 0 <$> re.2) = 1 ↔
     (∃ c, st = ExitCode c ∧ c ≠ 0%Z) ∧ backendReady a = true
     ∧ backendWasReady g = true ∧ backendRestartCount g < 1)
  ∧ (∀ c, st = ExitCode c → c ≠ 0%Z → backendReady a = false →
       re.2 = [CallReject (exit_message c a)] ∧ re.1.1 = g)
  ∧ ((∃ sg, st = ExitSignal sg) ∨ st = ExitCode 0 → re.2 = [] ∧ re.1.1 = g).
Proof.
  cbv zeta. unfold react, on_exit, restarts, count.
  destruct st as [c|sg]; simpl;
    [destruct (Z.eqb_spec c 0) as [->|Hc]; simpl;
     [|destruct (backendReady a) eqn:Hr, (backendWasReady g) eqn:Hw,
         (Nat.ltb_spec (backendRestartCount g) 1) as [Hlt|Hge]; simpl]|].
  all: split; [split|split]; try naive_solver lia.
Qed.


(** C3, as the code has it. On the exit of a child, an automatic restart
    is scheduled exactly when the exit code is a non-zero number, the
    attempt whose child exited had itself become ready, and fewer than one
    restart has been used (the session flag is then set as well); the
    counter grows by one exactly then. A non-zero exit of an attempt that
    never became ready rejects it with the exit code and all captured
    output and leaves the counter alone; an exit with code zero or through
    a signal (a null code) does nothing. *)
Theorem restart_iff_attempt_was_ready
    (evs : list Event) (i : nat) (a : Attempt) (st : ExitStatus) :
  attempts (exec init evs) !! i = Some a →
  enabled a (ChildExit st) = true →
  let s := exec init evs in
  let r := step s (At i (ChildExit st)) in
  (restarts r.2 = 1 ↔
     (∃ c, st = ExitCode c ∧ c ≠ 0%Z) ∧ backendReady a = true ∧ restartCount s < 1)
  ∧ (backendReady a = true → backendWasReady (globals s) = true)
  ∧ restartCount r.1 = restartCount s + restarts r.2
  ∧ (∀ c, st = ExitCode c → c ≠ 0%Z → backendReady a = false →
       r.2 = [On i (CallReject (exit_message c a))] ∧ globals r.1 = globals s)
  ∧ ((∃ sg, st = ExitSignal sg) ∨ st = ExitCode 0 →
       r.2 = [] ∧ globals r.1 = globals s).
Proof.
  intros Ha Hen s r.
  pose proof (ready_implies_wasReady evs i a Ha) as Hw. simpl in Hw.
  pose proof (step_restart_count s (At i (ChildExit st))) as Hcount.
  fold r in Hcount.
  assert (Hr : r = ({| globals := (react (current_child s) (globals s) a (ChildExit st)).1.1;
                       backendProcess := backendProcess s;
                       attempts := <[i := (react (current_child s) (globals s) a (ChildExit st)).1.2]> (attempts s) |},
                    On i <$> (react (current_child s) (globals s) a (ChildExit st)).2))
    by (by apply step_at).
  destruct (react_exit (current_child s) (globals s) a st) as (Hiff & Hrej & Hnone).
  assert (Hsame : ∀ cs : list Call, restarts (On i <$> cs) = restarts (On 0 <$> cs)).
  { intros cs. unfold restarts, count. induction cs as [|c cs IH]; [reflexivity|].
    rewrite !fmap_cons. simpl. destruct c; simpl; auto. }
  split; [|split; [exact Hw|split; [lia|split]]].
  - rewrite Hr. cbn [fst snd]. rewrite Hsame, Hiff. unfold restartCount.
    intuition.
  - intros c Hst Hc Hb. destruct (Hrej c Hst Hc Hb) as [Hcs Hg].
    rewrite Hr. cbn [fst snd globals]. rewrite Hcs, Hg. auto.
  - intros Hst. destruct (Hnone Hst) as [Hcs Hg].
    rewrite Hr. cbn [fst snd globals]. rewrite Hcs, Hg. auto.
Qed.

Lemma restart_iff_attempt_was_ready_witness :
  attempts (exec init (take 4 crash_after_ready)) !! 0 = Some ready_attempt
  ∧ enabled ready_attempt (ChildExit (ExitCode 1)) = true
  ∧ restarts (step (exec init (take 4 crash_after_ready))
                (At 0 (ChildExit (ExitCode 1)))).2 = 1.
Proof.
  split; [reflexivity|]. split; [reflexivity|].
  pose proof (restart_iff_attempt_was_ready (take 4 crash_after_ready) 0
                ready_attempt (ExitCode 1) eq_refl eq_refl) as H.
  cbv zeta in H. destruct H as [[_ H] _]. apply H.
  split; [exists 1%Z; split; [reflexivity|discriminate]|].
  split; [reflexivity|]. unfold restartCount. simpl. lia.
Defined.

(** C3, as specified, fails: when an earlier attempt has made the
    session flag true, a later attempt that crashes before it is ready is
    not restarted although the flag is set and the budget is unused. *)
Lemma session_flag_does_not_trigger_restart :
  ¬ (∀ evs i a st,
        attempts (exec init evs) !! i = Some a →
        enabled a (ChildExit st) = true →
        (restarts (step (exec init evs) (At i (ChildExit st))).2 = 1 ↔
           (∃ c, st = ExitCode c ∧ c ≠ 0%Z)
           ∧ backendWasReady (globals (exec init evs)) = true
           ∧ restartCount (exec init evs) < 1)).
Proof.
  intros H.
  specialize (H forced_restart 1 new_attempt (ExitCode 1) eq_refl eq_refl).
  destruct H as [_ H].
  assert (Hrhs : (∃ c, ExitCode 1 = ExitCode c ∧ c ≠ 0%Z)
                 ∧ backendWasReady (globals (exec init forced_restart)) = true
                 ∧ restartCount (exec init forced_restart) < 1).
  { split; [exists 1%Z; split; [reflexivity|discriminate]|].
    split; [reflexivity|]. unfold restartCount. simpl. lia. }
  specialize (H Hrhs). vm_compute in H. discriminate.
Qed.


(** *** Resolution and its timers (C1, C7) *)

Lemma react_resolve bp g a e :
  enabled a e = true →
  related true
    (count is_resolve_call (react bp g a e).2 + b2n (backendReady a) + 0)
    (b2n (backendReady (react bp g a e).1.2) + 0).
Proof. intros _. handler_cases e; bools; reflexivity. Qed.

Lemma resolve_ledger s evs i :
  count is_resolve_call (calls_of i (trace s evs))
    + measure_at (fun a => b2n (backendReady a)) i s
  = measure_at (fun a => b2n (backendReady a)) i (exec s evs).
Proof.
  assert (H := trace_ledger true is_resolve_call
                 (fun a => b2n (backendReady a)) (fun _ => 0)
                 (conj eq_refl eq_refl) (fun _ _ => conj eq_refl eq_refl)
                 react_resolve evs s i).
  cbv beta in H. unfold related in H. rewrite !measure_zero in H. lia.
Qed.

(** [resolve()] is called at most once per attempt: the guard of
    [resolveWithCleanup] works. *)
Lemma resolve_called_at_most_once evs i :
  count is_resolve_call (calls_of i (trace init evs)) ≤ 1.
Proof.
  pose proof (resolve_ledger init evs i) as H.
  pose proof (measure_b2n_le backendReady i (exec init evs)). lia.
Qed.

(** When the 30 s timer is no longer armed and the health request it may
    have issued has ended, the promise of the attempt is settled. *)
Lemma settled_after_deadline evs :
  holds (fun _ a => (backendReady a = true → promise a ≠ Pending)
                    ∧ (deadlineTimer a = false →
                       promise a ≠ Pending ∨ 0 < deadlineProbes a))
        (exec init evs).
Proof.
  apply reachable_holds.
  - auto.
  - intros g. split; discriminate.
  - intros bp g a e [H1 H2].
    handler_cases e; bools; split; intros; try congruence; try discriminate;
      auto; try (right; lia); try (left; congruence).
  - auto.
  - intros g a c H. exact H.
Qed.

Lemma elem_of_calls_of i (c : Call) (fx : list Effect) :
  On i c ∈ fx → c ∈ calls_of i fx.
Proof.
  induction fx as [|f fx IH]; intros Hin; [by apply elem_of_nil in Hin|].
  rewrite calls_of_cons. apply elem_of_cons in Hin as [<-|Hin].
  - rewrite Nat.eqb_refl. apply elem_of_cons. by left.
  - destruct f as [j c'| | |]; auto.
    destruct (i =? j)%nat; auto. apply elem_of_cons. right. auto.
Qed.

Lemma count_pos {A} (p : A → bool) (x : A) (l : list A) :
  x ∈ l → p x = true → 1 ≤ count p l.
Proof.
  intros Hin Hp. unfold count. induction l as [|y l IH]; [by apply elem_of_nil in Hin|].
  simpl. apply elem_of_cons in Hin as [<-|Hin].
  - rewrite Hp. simpl. lia.
  - destruct (p y); simpl; [|auto]. specialize (IH Hin). lia.
Qed.

Lemma react_ready_silent bp g a e :
  backendReady a = true → timer_or_probe e = true →
  count is_settle_call (react bp g a e).2 = 0
  ∧ backendReady (react bp g a e).1.2 = true
  ∧ promise (react bp g a e).1.2 = promise a.
Proof.
  intros Hr He.
  destruct e as [?output|?output| |[] [?status| |]| |?st|?message];
    try discriminate; run_handlers; bools; auto.
Qed.

(** C7, as the code has it. The step in which [resolve()] is called
    leaves the attempt ready with its 30 s timer cleared. For an attempt
    that is ready the 30 s timer is not armed, and a 2 s timer that fires
    or a health request that ends afterwards is stopped by the
    [backendReady] guard: its callback calls neither [resolve] nor
    [reject] and changes neither the flag nor the promise. *)
Theorem ready_resolution_clears_deadline (evs : list Event) (e : Event) (i : nat) :
  let s := exec init evs in
  (On i CallResolve ∈ (step s e).2 →
   ∃ a', attempts (step s e).1 !! i = Some a'
         ∧ backendReady a' = true
         ∧ deadlineTimer a' = false
         ∧ timeoutId a' = false)
  ∧ (∀ a, attempts s !! i = Some a → backendReady a = true →
       deadlineTimer a = false
       ∧ ∀ ae, timer_or_probe ae = true →
           settle_calls i (step s (At i ae)).2 = 0
           ∧ ∀ b, attempts (step s (At i ae)).1 !! i = Some b →
                  backendReady b = true ∧ promise b = promise a).
Proof.
  cbv zeta. split.
  - intros Hin.
    pose proof (resolve_ledger (exec init evs) [e] i) as Hl.
    change (trace (exec init evs) [e]) with ((step (exec init evs) e).2 ++ []) in Hl.
    change (exec (exec init evs) [e]) with (step (exec init evs) e).1 in Hl.
    rewrite app_nil_r in Hl.
    pose proof (count_pos is_resolve_call _ _ (elem_of_calls_of _ _ _ Hin) eq_refl)
      as Hpos.
    unfold measure_at in Hl at 2.
    destruct (attempts (step (exec init evs) e).1 !! i) as [a'|] eqn:Ha';
      simpl in Hl; [|lia].
    exists a'. split; [reflexivity|].
    assert (Hr : backendReady a' = true).
    { destruct (backendReady a'); [reflexivity|]. simpl in Hl.
      pose proof (measure_b2n_le backendReady i (exec init evs)). lia. }
    pose proof (ready_disarms_deadline (evs ++ [e]) i a') as [Hd Ht].
    { rewrite exec_app. exact Ha'. }
    auto.
  - intros a Ha Hr.
    pose proof (ready_disarms_deadline evs i a Ha) as [Hd Ht].
    split; [auto|]. intros ae Hae.
    destruct (enabled a ae) eqn:Hen.
    + rewrite (step_at _ _ _ a Ha Hen). cbn [fst snd attempts].
      destruct (react_ready_silent (current_child (exec init evs))
                  (globals (exec init evs)) a ae Hr Hae) as (Hc & Hb & Hp).
      unfold settle_calls. rewrite calls_of_same. split; [exact Hc|].
      intros b Hb'.
      rewrite list_lookup_insert_eq in Hb' by (eapply lookup_lt_Some, Ha).
      injection Hb' as <-. auto.
    + rewrite (step_at_disabled _ _ _ a Ha Hen). cbn [fst snd].
      split; [reflexivity|]. intros b Hb'. rewrite Ha in Hb'.
      injection Hb' as <-. auto.
Qed.

Lemma ready_resolution_clears_deadline_witness :
  attempts (exec init (take 4 crash_after_ready)) !! 0 = Some ready_attempt
  ∧ backendReady ready_attempt = true
  ∧ deadlineTimer ready_attempt = false
  ∧ settle_calls 0
      (step (exec init (take 4 crash_after_ready)) (At 0 DeadlineFires)).2 = 0.
Proof.
  split; [reflexivity|]. split; [reflexivity|].
  pose proof (ready_resolution_clears_deadline (take 4 crash_after_ready)
                Spawn 0) as H.
  cbv zeta in H. destruct H as [_ H].
  destruct (H ready_attempt eq_refl eq_refl) as [Hd Hs].
  split; [exact Hd|]. apply (Hs DeadlineFires eq_refl).
Defined.

(** C7, as specified, fails: a resolution does not cancel what is
    pending. Here the attempt resolves through the 30 s callback while
    the 2 s timer armed by the marker is still pending. *)
Lemma resolution_does_not_cancel_pending_timers :
  ¬ (∀ evs i a,
        attempts (exec init evs) !! i = Some a →
        promise a ≠ Pending →
        deadlineTimer a = false ∧ debounceTimers a = 0
        ∧ markerProbes a = 0 ∧ deadlineProbes a = 0).
Proof.
  intros H.
  destruct (H marker_then_deadline 0 _ eq_refl) as (_ & Hd & _).
  - discriminate.
  - discriminate.
Qed.

(** C1 on the code. The rejecting paths neither set the guard nor clear
    the timer. A child that exits with code 1 before it is ready rejects
    the attempt, and the 30 s callback rejects it a second time; when the
    crash falls inside the 2 s debounce, the attempt is rejected and
    then resolved, and the session takes it for having been ready. *)
Theorem crash_before_ready_settles_twice :
  settle_calls 0 (trace init crash_then_deadline) = 2
  ∧ calls_of 0 (trace init crash_then_deadline)
    = [CallReject (join_lines ["Backend exited with code 1";
                               "--- STDOUT ---"; "--- STDERR ---"]);
       ClearTimeout;
       CallReject (join_lines ["Backend startup timeout - process may have exited";
                               "Process killed: false"; "Exit code: 1";
                               "Saw startup begin: false"; "Saw migrations: false";
                               "--- STDOUT ---"; "--- STDERR ---"])]
  ∧ settle_calls 0 (trace init crash_inside_debounce) = 2
  ∧ calls_of 0 (trace init crash_inside_debounce)
    = [SetDebounce;
       CallReject (join_lines ["Backend exited with code 1"; "--- STDOUT ---";
                               "--- STDERR ---"; uvicorn_line]);
       HealthGet MarkerProbe; ClearTimeout; CallResolve]
  ∧ backendWasReady (globals (exec init crash_inside_debounce)) = true.
Proof. repeat split; vm_compute; reflexivity. Qed.


(** *** The startup deadline (C4) *)

Lemma slice_last_short {A} (n : nat) (xs : list A) :
  length xs ≤ n → slice_last n xs = xs.
Proof.
  intros Hle. unfold slice_last.
  replace (length xs - n) with 0 by lia. reflexivity.
Qed.

Lemma slice_last_length {A} (n : nat) (xs : list A) :
  length (slice_last n xs) = Nat.min n (length xs).
Proof. unfold slice_last. rewrite length_drop. lia. Qed.

Lemma slice_last_suffix {A} (n : nat) (xs : list A) :
  take (length xs - n) xs ++ slice_last n xs = xs.
Proof. unfold slice_last. apply take_drop. Qed.

(** The report of the 30 s callback carries the two progress flags and
    the last 50 entries of each captured stream. *)
Lemma timeout_lines_content bp a :
  ("Saw startup begin: " +:+ js_bool (sawStartupBegin a)) ∈ timeout_lines bp a
  ∧ ("Saw migrations: " +:+ js_bool (sawMigrations a)) ∈ timeout_lines bp a
  ∧ (∀ x, x ∈ slice_last 50 (stdoutOutput a) → x ∈ timeout_lines bp a)
  ∧ (∀ x, x ∈ slice_last 50 (errorOutput a) → x ∈ timeout_lines bp a).
Proof.
  unfold timeout_lines. repeat split; intros; rewrite !elem_of_app, !elem_of_cons;
    auto 10.
Qed.

(** A child that the handle reports as running: the 30 s callback issues
    one health request, and the attempt resolves however it ends. *)
Lemma deadline_running_then_ready bp bp' g g' a r :
  backendReady a = false → still_running bp = true →
  (react bp g a DeadlineFires).2 = [HealthGet DeadlineProbe]
  ∧ promise (react bp g a DeadlineFires).1.2 = promise a
  ∧ enabled (react bp g a DeadlineFires).1.2 (ProbeDone DeadlineProbe r) = true
  ∧ let re := react bp' g' (react bp g a DeadlineFires).1.2
                (ProbeDone DeadlineProbe r) in
    backendReady re.1.2 = true
    ∧ CallResolve ∈ re.2
    ∧ (∀ m, CallReject m ∉ re.2)
    ∧ (promise a = Pending → promise re.1.2 = Settled Ready).
Proof.
  intros Hr Hrun. unfold react at 1 2 3 4 5, on_deadline. simpl. rewrite Hr, Hrun.
  simpl. repeat split; try reflexivity.
  all: destruct r as [status| |]; run_handlers; bools; simpl; try congruence.
  all: try (apply list_elem_of_In; simpl; by auto).
  all: try (intros m Hm;
            repeat (apply elem_of_cons in Hm as [Hm|Hm]; [discriminate|]);
            by apply elem_of_nil in Hm).
Qed.

(** A child whose handle holds an exit code: the 30 s callback rejects
    the attempt with the report. *)
Lemma deadline_exit_code_fails bp p c g a :
  backendReady a = false → bp = Some p → exitCode p = Some c →
  let re := react bp g a DeadlineFires in
  CallReject (join_lines (timeout_lines bp a)) ∈ re.2
  ∧ (CallResolve ∉ re.2)
  ∧ (promise a = Pending
     → promise re.1.2 = Settled (Failed (join_lines (timeout_lines bp a)))).
Proof.
  intros Hr -> Hc. cbv zeta. unfold react, on_deadline, still_running. simpl.
  rewrite Hr, Hc. rewrite andb_false_r. simpl.
  unfold settle. destruct (timeoutId a); simpl.
  all: repeat split; try (apply list_elem_of_In; simpl; by auto).
  all: try (intros Hm;
            repeat (apply elem_of_cons in Hm as [Hm|Hm]; [discriminate|]);
            by apply elem_of_nil in Hm).
  all: intros ->; reflexivity.
Qed.

(** C4 on the code. A child ended by a signal has no exit code, and its
    handle was not killed through [kill()]: the test of the 30 s callback
    takes it for running. The callback probes, the request fails, and
    the attempt resolves although the child has exited; it is never
    rejected. *)
Theorem deadline_after_signal_resolves_ready :
  let s := exec init signal_then_deadline in
  (∃ a, attempts s !! 0 = Some a
        ∧ has_exited (child a) = true
        ∧ still_running (Some (child a)) = true
        ∧ backendReady a = true
        ∧ promise a = Settled Ready)
  ∧ calls_of 0 (trace init signal_then_deadline)
    = [HealthGet DeadlineProbe; ClearTimeout; CallResolve]
  ∧ backendWasReady (globals s) = true.
Proof.
  cbv zeta. split; [|split; vm_compute; reflexivity].
  eexists. split; [vm_compute; reflexivity|]. repeat split.
Qed.

(** *** The debounced health check on the clock (C5) *)

Import SupervisorClock.

















End SupervisorFacts.


(** ** The executable resolver *)

Module ResolverFacts.
Import Resolver.

Lemma append_empty (a b : string) : a +:+ b = "" → a = "" ∧ b = "".
Proof. destruct a; simpl; [auto | discriminate]. Qed.

Lemma path_join_non_empty pf (a b : string) (l : list string) :
  path_join pf (a :: b :: l) ≠ "".
Proof.
  unfold path_join. simpl. intros H.
  apply append_empty in H as [_ H]. apply append_empty in H as [H _].
  unfold path_sep in H. destruct (is_win32 pf); discriminate.
Qed.

Lemma non_empty_spec (s : string) : PortReclaimer.non_empty s = true ↔ s ≠ "".
Proof. destruct s; simpl; split; congruence. Qed.

Lemma find_present (d : Disk) (l : list string) (p : string) :
  List.find (present d) l = Some p → present d p = true ∧ In p l.
Proof. intros H. apply List.find_some in H. tauto. Qed.

Lemma systemPaths_non_empty arch p : In p (systemPaths arch) → p ≠ "".
Proof.
  unfold systemPaths. destruct (String.eqb arch "arm64"); simpl;
    intros [<-|[<-|[<-|[]]]]; discriminate.
Qed.

Lemma getElectronArch_values h :
  getElectronArch h = "arm64" ∨ getElectronArch h = "x64".
Proof.
  unfold getElectronArch, arm64_or_x64.
  destruct (is_darwin (platform h)); [destruct (arch_output h)|];
    match goal with |- context [String.eqb ?a ?b] => destruct (String.eqb a b) end;
    auto.
Qed.

(** X1. [getPythonExecutable] never returns an empty string, and what it
    returns is either the bare command of the platform ([python3], or
    [python.exe] on Windows) or a path that exists; in packaged mode the
    bundled interpreter wins whenever it exists, whatever else is
    installed. *)
Theorem getPythonExecutable_bare_or_present (dev : bool) (h : Host) (d : Disk) :
  let r := getPythonExecutable dev h d in
  r ≠ ""
  ∧ (r = bare_python (platform h) ∨ present d r = true)
  ∧ (dev = false → present d (bundledVenvPython h) = true → r = bundledVenvPython h).
Proof.
  cbv zeta. unfold getPythonExecutable, bundledVenvPython, bare_python.
  destruct dev.
  - destruct (is_win32 (platform h)) eqn:Hw;
      match goal with |- context [present d ?p] => destruct (present d p) eqn:Hp end;
      repeat split; auto using path_join_non_empty; discriminate.
  - destruct (is_win32 (platform h)) eqn:Hw.
    + destruct (present d (path_join _ _)) eqn:Hp;
        repeat split; auto using path_join_non_empty; discriminate.
    + destruct (present d (path_join _ _)) eqn:Hp;
        [repeat split; auto using path_join_non_empty; discriminate|].
      destruct (List.find _ _) as [p|] eqn:Hf.
      * apply find_present in Hf as [Hpres Hin].
        repeat split; eauto using systemPaths_non_empty; discriminate.
      * repeat split; auto; discriminate.
Qed.

Lemma getPythonExecutable_non_empty dev h d : getPythonExecutable dev h d ≠ "".
Proof.
  unfold getPythonExecutable, bundledVenvPython, bare_python.
  destruct dev, (is_win32 (platform h));
    repeat match goal with
      | |- context [present d ?p] => destruct (present d p)
      end; auto using path_join_non_empty; try discriminate.
  destruct (List.find _ _) as [p|] eqn:Hf; [|discriminate].
  apply find_present in Hf as [_ Hin]. eauto using systemPaths_non_empty.
Qed.

Lemma getPythonExecutable_cases dev h d :
  getPythonExecutable dev h d = bare_python (platform h)
  ∨ present d (getPythonExecutable dev h d) = true.
Proof.
  unfold getPythonExecutable, bundledVenvPython, bare_python.
  destruct dev.
  - destruct (is_win32 (platform h)) eqn:Hw;
      match goal with |- context [present d ?p] => destruct (present d p) eqn:Hp end;
      auto.
  - destruct (is_win32 (platform h)) eqn:Hw.
    + destruct (present d (path_join _ _)) eqn:Hp; auto.
    + destruct (present d (path_join _ _)) eqn:Hp; [auto|].
      destruct (List.find _ _) as [p|] eqn:Hf; [|auto].
      apply find_present in Hf as [Hpres _]. auto.
Qed.

Lemma which_step h d p r1 :
  r1 = p ∨ present d r1 = true →
  match which h p with
  | Normal out =>
      if PortReclaimer.non_empty (trim out) && present d (trim out)
      then trim out else r1
  | Throw _ => r1
  end = p
  ∨ present d match which h p with
              | Normal out =>
                  if PortReclaimer.non_empty (trim out) && present d (trim out)
                  then trim out else r1
              | Throw _ => r1
              end = true.
Proof.
  intros Hr1. destruct (which h p) as [out|e]; [|exact Hr1].
  destruct (PortReclaimer.non_empty (trim out) && present d (trim out)) eqn:Hw;
    [|exact Hr1].
  apply andb_true_iff in Hw as [_ Hw]. auto.
Qed.

(** The resolution step keeps the command or replaces it by a path that
    exists. *)
Lemma resolve_python_cases h d p :
  resolve_python h d p = p ∨ present d (resolve_python h d p) = true.
Proof.
  unfold resolve_python.
  destruct (isAbsolute (platform h) p); cbn [negb]; [auto|].
  set (r1 := if is_darwin (platform h) then _ else _).
  assert (Hr1 : r1 = p ∨ present d r1 = true).
  { unfold r1. destruct (is_darwin (platform h)); [|auto].
    destruct (List.find (present d) commonPaths) as [q|] eqn:Hf; [|auto].
    apply find_present in Hf as [Hq _]. auto. }
  destruct (String.eqb r1 p); [|exact Hr1].
  by apply which_step.
Qed.

Lemma js_or_non_empty o fallback : fallback ≠ "" → js_or o fallback ≠ "".
Proof.
  intros Hf. unfold js_or. destruct o as [s|]; [|exact Hf].
  destruct (PortReclaimer.non_empty s) eqn:Hs; [|exact Hf].
  by apply non_empty_spec.
Qed.



(** X3. [startBackend] never rejects with the "requires Python" error:
    the interpreter it starts from is never empty. When it rejects
    because the interpreter was not found, nothing was resolved ([resolved]
    is the command itself), the command does not exist as a path, and,
    unless it came from the venv set-up, it is the bare command of the
    platform. When it rejects because the interpreter is not executable,
    the platform is not Windows and the path exists. *)
Theorem launch_rejections
    (dev : bool) (h : Host) (d : Disk) (pp : option string) (e : LaunchError) :
  launch dev h d pp = Rejects e →
  match e with
  | NoPython => False
  | NotFound pythonExec resolved =>
      resolved = pythonExec
      ∧ present d pythonExec = false
      ∧ (pp = None → pythonExec = bare_python (platform h))
  | NotExecutable resolved =>
      is_win32 (platform h) = false
      ∧ present d resolved = true
      ∧ executable d resolved = false
  end.
Proof.
  unfold launch.
  pose proof (js_or_non_empty pp _ (getPythonExecutable_non_empty dev h d)) as Hne.
  apply non_empty_spec in Hne. rewrite Hne, andb_false_r.
  set (p := js_or pp _) in *.
  pose proof (resolve_python_cases h d p) as Hres.
  destruct (present d (resolve_python h d p)) eqn:Hp; simpl.
  - destruct (negb (is_win32 (platform h)) && negb (executable d _)) eqn:Hx.
    + intros [= <-]. apply andb_true_iff in Hx as [Hw Hx].
      apply negb_true_iff in Hw, Hx. auto.
    + destruct (_ && _ && _); discriminate.
  - intros [= <-]. destruct Hres as [Heq|?]; [|congruence].
    rewrite Heq in Hp. split; [exact Heq|]. split; [exact Hp|].
    intros ->. unfold p, js_or in *.
    destruct (getPythonExecutable_cases dev h d) as [Hb|Hb]; [exact Hb|congruence].
Qed.

Lemma launch_rejections_witness :
  launch true bare_linux empty_disk None = Rejects (NotFound "python3" "python3")
  ∧ "python3" = "python3"
  ∧ present empty_disk "python3" = false
  ∧ (None = None :> option string → "python3" = bare_python (platform bare_linux)).
Proof.
  split; [reflexivity|].
  apply (launch_rejections true bare_linux empty_disk None
           (NotFound "python3" "python3")).
  reflexivity.
Defined.

Lemma call_getPythonExecutable_spec dev h w :
  call_getPythonExecutable dev h w
  = ({| disk := disk w; ran := ran w ++ arch_log h |},
     getPythonExecutable dev h (disk w)).
Proof. reflexivity. Qed.

Lemma call_resolve_python_spec h w p :
  disk (call_resolve_python h w p).1 = disk w
  ∧ (call_resolve_python h w p).2 = resolve_python h (disk w) p
  ∧ (isAbsolute (platform h) p = true → call_resolve_python h w p = (w, p)).
Proof.
  unfold call_resolve_python.
  destruct (isAbsolute (platform h) p) eqn:Habs; simpl.
  - unfold resolve_python. rewrite Habs. auto.
  - destruct (String.eqb _ p); simpl; repeat split; auto; discriminate.
Qed.

(** The launch with its commands decides as [launch] does, on the same
    disk. *)
Lemma call_launch_spec dev h w pp :
  disk (call_launch dev h w pp).1 = disk w
  ∧ (call_launch dev h w pp).2 = launch dev h (disk w) pp.
Proof.
  unfold call_launch, launch, js_or.
  assert (Hsel :
    ∃ w1, (match pp with
           | Some s => if PortReclaimer.non_empty s then (w, s)
                       else call_getPythonExecutable dev h w
           | None => call_getPythonExecutable dev h w
           end)
          = (w1, match pp with
                 | Some s => if PortReclaimer.non_empty s then s
                             else getPythonExecutable dev h (disk w)
                 | None => getPythonExecutable dev h (disk w)
                 end)
          ∧ disk w1 = disk w).
  { destruct pp as [s|]; [destruct (PortReclaimer.non_empty s)|];
      rewrite ?call_getPythonExecutable_spec; eauto. }
  destruct Hsel as (w1 & -> & Hd1).
  set (py := match pp with
             | Some s => if PortReclaimer.non_empty s then s
                         else getPythonExecutable dev h (disk w)
             | None => getPythonExecutable dev h (disk w)
             end).
  destruct (negb dev && negb (PortReclaimer.non_empty py)); [simpl; by auto|].
  destruct (call_resolve_python_spec h w1 py) as (Hd2 & Hv & _).
  destruct (call_resolve_python h w1 py) as [w2 resolved]. simpl in Hd2, Hv.
  subst resolved. rewrite Hd2, Hd1.
  destruct (negb (present (disk w) (resolve_python h (disk w) py)));
    [simpl; by rewrite Hd2, Hd1|].
  destruct (negb (is_win32 (platform h))
            && negb (executable (disk w) (resolve_python h (disk w) py)));
    [simpl; by rewrite Hd2, Hd1|].
  destruct (is_darwin (platform h)); simpl; [|by rewrite Hd2, Hd1].
  destruct (String.eqb (os_arch h) "arm64" && String.eqb (getElectronArch h) "x64");
    simpl; by rewrite Hd2, Hd1.
Qed.

Lemma reclaim_log_spec pf listing killError :
  1 ≤ length (reclaim_log pf listing killError) ≤ 2
  ∧ reclaim_log pf listing killError !! 0
    = Some (PortReclaimer.list_command pf, negb (PortReclaimer.exec_error listing)).
Proof.
  unfold reclaim_log, PortReclaimer.killExistingBackend.
  repeat case_match; simpl; split; auto; lia.
Qed.

(** X4. In packaged mode, when the bundled interpreter exists at an
    absolute path (and is executable, off Windows), [startBackend] spawns
    it and leaves the disk as it was. The only commands it runs before
    the spawn are those of [killExistingBackend] (the listing of the
    port, and the kill command if one is issued) and, on macOS, one
    [arch]: no command of the venv set-up and no [which] is run. *)
Theorem packaged_launch_uses_bundled_python
    (h : Host) (listing : PortReclaimer.ExecResult) (killError : bool) (w : World) :
  present (disk w) (bundledVenvPython h) = true →
  isAbsolute (platform h) (bundledVenvPython h) = true →
  (is_win32 (platform h) = false → executable (disk w) (bundledVenvPython h) = true) →
  ∃ command args,
    startBackend_plan false h listing killError w
    = ({| disk := disk w;
          ran := ran w ++ reclaim_log (platform h) listing killError ++ arch_log h |},
       Spawns command args)
    ∧ (command = bundledVenvPython h
       ∨ (command = "arch" ∧ args !! 1 = Some (bundledVenvPython h)))
    ∧ 1 ≤ length (reclaim_log (platform h) listing killError) ≤ 2
    ∧ reclaim_log (platform h) listing killError !! 0
      = Some (PortReclaimer.list_command (platform h),
              negb (PortReclaimer.exec_error listing)).
Proof.
  intros Hp Habs Hx.
  destruct (reclaim_log_spec (platform h) listing killError) as [Hlen Hfirst].
  unfold startBackend_plan, setupProductionVenv. cbn [negb disk].
  rewrite Hp. unfold call_launch.
  assert (Hne : PortReclaimer.non_empty (bundledVenvPython h) = true).
  { apply non_empty_spec. unfold bundledVenvPython.
    destruct (is_win32 (platform h)); apply path_join_non_empty. }
  rewrite Hne. cbn [negb andb].
  set (w0 := {| disk := disk w;
                ran := ran w ++ reclaim_log (platform h) listing killError |}).
  destruct (call_resolve_python_spec h w0 (bundledVenvPython h)) as (_ & _ & Hsame).
  rewrite (Hsame Habs). cbn [disk w0]. rewrite Hp. cbn [negb].
  assert (Hexec : negb (is_win32 (platform h))
                  && negb (executable (disk w) (bundledVenvPython h)) = false).
  { destruct (is_win32 (platform h)); [reflexivity|]. by rewrite (Hx eq_refl). }
  rewrite Hexec. unfold call_getElectronArch, arch_log.
  destruct (is_darwin (platform h)) eqn:Hd.
  - cbn [w0 disk ran]. rewrite <- app_assoc.
    destruct (String.eqb (os_arch h) "arm64" && String.eqb (getElectronArch h) "x64");
      rewrite ?Hne; cbn [negb]; eauto 10.
  - rewrite app_nil_r, ?Hne. cbn [negb]. eauto 10.
Qed.

Lemma packaged_launch_uses_bundled_python_witness :
  present bundled_disk (bundledVenvPython rosetta_mac) = true
  ∧ startBackend_plan false rosetta_mac PortReclaimer.two_pids false
      {| disk := bundled_disk; ran := [] |}
    = ({| disk := bundled_disk;
          ran := [("lsof -ti:8765", true); ("kill -9 123 456", true);
                  ("arch", true)] |},
       Spawns "arch" ["-arm64"; bundled_python_path;
                      "/Applications/BillTrim.app/Contents/Resources/backend/run_server.py"]).
Proof.
  split; [reflexivity|].
  destruct (packaged_launch_uses_bundled_python rosetta_mac PortReclaimer.two_pids false
              {| disk := bundled_disk; ran := [] |} eq_refl eq_refl (fun _ => eq_refl))
    as (command & args & Hplan & _).
  rewrite Hplan. vm_compute in Hplan. injection Hplan as <- <-. reflexivity.
Defined.

Lemma run_ran h c w : ran (run h c w).1 = ran w ++ [(c, (run h c w).2)].
Proof. unfold run. destruct (shell h c (disk w)). reflexivity. Qed.

Ltac failure_is_last :=
  let k := fresh "k" in
  let c := fresh "c" in
  let Hk := fresh "Hk" in
  intros k c Hk;
  repeat (lazymatch type of Hk with None = _ => fail | _ => idtac end;
          destruct k as [|k]; simpl in Hk;
          [first [discriminate|reflexivity]|]);
  discriminate.

(** The install pipeline: [arch] on macOS, then a prefix of the three
    install commands that ends at the first failure; the runtime
    interpreter is returned only after three successes. *)
Lemma create_runtime_venv_spec h w :
  ∃ installs sp,
    ran (create_runtime_venv h w).1 = ran w ++ arch_log h ++ installs
    ∧ (∃ n, installs.*1
            = take n [create_venv h sp; upgrade_pip h; install_requirements h])
    ∧ (∀ k c, installs !! k = Some (c, false) → S k = length installs)
    ∧ match (create_runtime_venv h w).2 with
      | Some p =>
          p = runtimeVenvPython h
          ∧ installs = [(create_venv h sp, true); (upgrade_pip h, true);
                        (install_requirements h, true)]
          ∧ present (disk (create_runtime_venv h w).1) (runtimeVenvPython h) = true
      | None => True
      end
    ∧ (present (disk w) (requirementsFile h) = false →
       create_runtime_venv h w
       = ({| disk := disk w; ran := ran w ++ arch_log h |}, None)).
Proof.
  unfold create_runtime_venv. rewrite call_getPythonExecutable_spec.
  set (sp := getPythonExecutable false h (disk w)).
  set (w0 := {| disk := disk w; ran := ran w ++ arch_log h |}).
  change (disk w0) with (disk w).
  destruct (present (disk w) (requirementsFile h)) eqn:Hreq; simpl.
  2:{ exists [], sp. rewrite !app_nil_r. repeat split; auto.
      - by exists 0.
      - intros k c Hk. by destruct k. }
  pose proof (run_ran h (create_venv h sp) w0) as H1.
  destruct (run h (create_venv h sp) w0) as [w1 ok1]. simpl in H1.
  destruct ok1; simpl.
  2:{ exists [(create_venv h sp, false)], sp. rewrite H1, <- app_assoc.
      repeat split; auto; try discriminate; [by exists 1|failure_is_last]. }
  pose proof (run_ran h (upgrade_pip h) w1) as H2.
  destruct (run h (upgrade_pip h) w1) as [w2 ok2]. simpl in H2.
  destruct ok2; simpl.
  2:{ exists [(create_venv h sp, true); (upgrade_pip h, false)], sp.
      rewrite H2, H1, <- !app_assoc.
      repeat split; auto; try discriminate; [by exists 2|failure_is_last]. }
  pose proof (run_ran h (install_requirements h) w2) as H3.
  destruct (run h (install_requirements h) w2) as [w3 ok3]. simpl in H3.
  assert (Hran : ran w3 = ran w ++ arch_log h
                          ++ [(create_venv h sp, true); (upgrade_pip h, true);
                              (install_requirements h, ok3)]).
  { rewrite H3, H2, H1, <- !app_assoc. reflexivity. }
  destruct ok3; simpl.
  2:{ eexists _, sp. split; [exact Hran|].
      repeat split; auto; try discriminate; [by exists 3|failure_is_last]. }
  destruct (present (disk w3) (runtimeVenvPython h)) eqn:Hp; simpl;
    eexists _, sp; (split; [exact Hran|]);
    repeat split; auto; try discriminate; try (by exists 3); failure_is_last.
Qed.


(** X6. [setupProductionVenv] changes nothing and runs nothing in
    development mode, where it returns [null], and when the bundled
    interpreter exists, which it returns. In packaged mode without a
    bundled interpreter, a runtime venv or a requirements file it
    returns [null] and leaves the disk as it is, having run nothing but
    the [arch] of [getPythonExecutable], and that on macOS alone. *)
Theorem setupProductionVenv_idle_cases (dev : bool) (h : Host) (w : World) :
  (dev = true → setupProductionVenv dev h w = (w, None))
  ∧ (dev = false → present (disk w) (bundledVenvPython h) = true →
     setupProductionVenv dev h w = (w, Some (bundledVenvPython h)))
  ∧ (dev = false →
     present (disk w) (bundledVenvPython h) = false →
     present (disk w) (runtimeVenvPython h) = false →
     present (disk w) (requirementsFile h) = false →
     setupProductionVenv dev h w
     = ({| disk := disk w; ran := ran w ++ arch_log h |}, None)
     ∧ (is_darwin (platform h) = false → setupProductionVenv dev h w = (w, None))
     ∧ (is_darwin (platform h) = true →
        arch_log h = [("arch", succeeded (arch_output h))])).
Proof.
  unfold setupProductionVenv. split; [|split].
  - intros ->. reflexivity.
  - intros -> ->. reflexivity.
  - intros -> Hb Hr Hq. rewrite Hb, Hr.
    destruct (create_runtime_venv_spec h w) as (_ & _ & _ & _ & _ & _ & Hnone).
    rewrite (Hnone Hq). split; [reflexivity|]. split.
    + intros Hd. unfold arch_log. rewrite Hd, app_nil_r. by destruct w.
    + intros Hd. unfold arch_log. by rewrite Hd.
Qed.

Example setupProductionVenv_reuses_runtime_venv :
  setupProductionVenv false packaged_linux {| disk := runtime_venv_disk; ran := [] |}
  = ({| disk := runtime_venv_disk;
        ran := [(import_check packaged_linux, true)] |},
     Some (runtimeVenvPython packaged_linux)).
Proof. reflexivity. Qed.

End ResolverFacts.

(** ** The license file through its life *)

Module LicenseLifecycle.
Import License LicenseFacts.

Lemma strip_app (a b : string) :
  strip_non_digits (a +:+ b) = strip_non_digits a +:+ strip_non_digits b.
Proof.
  induction a as [|c a IH]; [reflexivity|]. simpl.
  destruct (is_digit c); simpl; rewrite IH; reflexivity.
Qed.

Lemma strip_length (k : string) :
  String.length (strip_non_digits k) ≤ String.length k.
Proof.
  induction k as [|c k IH]; [reflexivity|]. simpl.
  destruct (is_digit c); simpl; lia.
Qed.

(** X7. Characters that are not digits never matter to validation:
    inserting or removing them anywhere in a key (dashes, blanks, line
    ends) leaves the verdict unchanged. A key that validates holds at
    least twenty characters. *)
Theorem validateLicense_ignores_separators (a sep b k : string) :
  (strip_non_digits sep = "" →
   validateLicense (a +:+ sep +:+ b) = validateLicense (a +:+ b))
  ∧ (validateLicense k = true → 20 ≤ String.length k).
Proof.
  split.
  - intros Hsep. unfold validateLicense.
    rewrite !strip_app, Hsep. reflexivity.
  - intros Hv. apply validateLicense_spec in Hv.
    pose proof (strip_length k) as Hle. rewrite Hv in Hle. exact Hle.
Qed.

Lemma getStoredLicense_spec (fs : FileSystem) :
  getStoredLicense fs
  = Normal (match licenseFile fs with
            | Some content =>
                if negb (read_fails fs) && validateLicense content
                then Some (trim content) else None
            | None => None
            end).
Proof.
  unfold getStoredLicense, existsSync, readFileSync.
  destruct (licenseFile fs) as [content|]; [|reflexivity].
  destruct (read_fails fs); simpl; [reflexivity|].
  rewrite validateLicense_trim. reflexivity.
Qed.

(** X8. [check-license] never throws, and it answers [true] exactly when
    the license file exists, can be read, and the digits of its content
    are the reference: surrounding white space, dashes or any other
    non-digit in the file do not matter. *)
Theorem check_license_iff_file_validates (fs : FileSystem) :
  ∃ b, ipc_check_license fs = Normal b
       ∧ (b = true ↔
          ∃ content, licenseFile fs = Some content
                     ∧ read_fails fs = false
                     ∧ strip_non_digits content = VALID_LICENSE_KEY).
Proof.
  unfold ipc_check_license. rewrite getStoredLicense_spec. simpl.
  destruct (licenseFile fs) as [content|].
  - destruct (read_fails fs); simpl.
    + exists false. split; [reflexivity|]. split; [discriminate|].
      intros (c & _ & Hr & _). discriminate.
    + destruct (validateLicense content) eqn:Hv.
      * exists true. split; [reflexivity|]. split; [|reflexivity].
        intros _. exists content. apply validateLicense_spec in Hv. auto.
      * exists false. split; [reflexivity|]. split; [discriminate|].
        intros (c & [= <-] & _ & Hc). apply validateLicense_spec in Hc. congruence.
  - exists false. split; [reflexivity|]. split; [discriminate|].
    intros (c & Hc & _). discriminate.
Qed.

(** X9. [clear-license] never throws. When it answers [true] the license
    file is gone and [check-license] answers [false]; clearing when
    nothing is stored succeeds and changes nothing; it answers [false]
    only when the file exists and cannot be removed, and then the file
    system is as it was. *)
Theorem clear_license_removes_license (fs : FileSystem) :
  ∃ fs' b,
    ipc_clear_license fs = Normal (fs', b)
    ∧ (b = true → licenseFile fs' = None ∧ ipc_check_license fs' = Normal false)
    ∧ (b = false → fs' = fs ∧ licenseFile fs ≠ None ∧ write_fails fs = true)
    ∧ (licenseFile fs = None → b = true ∧ fs' = fs).
Proof.
  unfold ipc_clear_license, existsSync, unlinkSync.
  destruct (licenseFile fs) as [content|] eqn:Hf.
  - destruct (write_fails fs) eqn:Hw; simpl.
    + exists fs, false. split; [reflexivity|].
      repeat split; auto; try discriminate; try congruence.
    + eexists _, true. split; [reflexivity|].
      repeat split; auto; discriminate.
  - exists fs, true. split; [reflexivity|].
    repeat split; auto; try discriminate.
    unfold ipc_check_license. rewrite getStoredLicense_spec, Hf. reflexivity.
Qed.

(** X10. On a file system that can be written and read, [check-license]
    after [store-license] answers [true] exactly when the key just
    offered validates or a valid license was stored before: a refused
    key never disturbs the license that is in place. *)
Theorem store_keeps_or_installs_license (fs : FileSystem) (rawKey : string) :
  write_fails fs = false →
  read_fails fs = false →
  ∃ fs' b b0,
    ipc_store_license fs rawKey = Normal (fs', b)
    ∧ b = validateLicense rawKey
    ∧ ipc_check_license fs = Normal b0
    ∧ ipc_check_license fs' = Normal (b || b0).
Proof.
  intros Hw Hr.
  unfold ipc_store_license, storeLicenseKey, writeFileSync, ipc_check_license.
  rewrite !getStoredLicense_spec, validateLicense_normalized, Hw.
  destruct (validateLicense rawKey) eqn:Hv; simpl.
  - eexists _, true, _. split; [reflexivity|]. split; [reflexivity|].
    split; [reflexivity|]. rewrite getStoredLicense_spec. simpl.
    rewrite Hr, validateLicense_normalized, Hv. reflexivity.
  - eexists fs, false, _. split; [reflexivity|]. split; [reflexivity|].
    split; [reflexivity|]. rewrite getStoredLicense_spec. reflexivity.
Qed.

Lemma store_keeps_or_installs_license_witness :
  write_fails LicenseScenarios.licensed_fs = false
  ∧ read_fails LicenseScenarios.licensed_fs = false
  ∧ ∃ fs' b b0,
      ipc_store_license LicenseScenarios.licensed_fs "1234" = Normal (fs', b)
      ∧ b = validateLicense "1234"
      ∧ ipc_check_license LicenseScenarios.licensed_fs = Normal b0
      ∧ ipc_check_license fs' = Normal (b || b0).
Proof.
  split; [reflexivity|]. split; [reflexivity|].
  apply (store_keeps_or_installs_license LicenseScenarios.licensed_fs "1234"); reflexivity.
Defined.

End LicenseLifecycle.

(** ** Substrings *)

Module StringFacts.

Lemma append_nil_r (s : string) : s +:+ "" = s.
Proof.
  induction s as [|c s IH]; [reflexivity|].
  change (String c s +:+ "") with (String c (s +:+ "")). by rewrite IH.
Qed.

Lemma append_assoc (a b c : string) : (a +:+ b) +:+ c = a +:+ b +:+ c.
Proof.
  induction a as [|x a IH]; [reflexivity|].
  change ((String x a +:+ b) +:+ c) with (String x ((a +:+ b) +:+ c)).
  by rewrite IH.
Qed.

Lemma includes_unfold (hay needle : string) :
  includes hay needle
  = String.prefix needle hay
    || match hay with
       | EmptyString => false
       | String _ rest => includes rest needle
       end.
Proof. destruct hay; reflexivity. Qed.

Lemma prefix_nil (s : string) : String.prefix "" s = true.
Proof. destruct s; reflexivity. Qed.

Lemma prefix_app (n b : string) : String.prefix n (n +:+ b) = true.
Proof.
  induction n as [|c n IH]; [apply prefix_nil|]. simpl.
  destruct (ascii_dec c c); [exact IH|contradiction].
Qed.

Lemma prefix_app_l (n a b : string) :
  String.prefix n a = true → String.prefix n (a +:+ b) = true.
Proof.
  revert a. induction n as [|c n IH]; intros a H; [apply prefix_nil|].
  destruct a as [|c' a]; simpl in *; [discriminate|].
  destruct (ascii_dec c c'); [auto|discriminate].
Qed.

Lemma includes_self_app (n b : string) : includes (n +:+ b) n = true.
Proof. rewrite includes_unfold, prefix_app. reflexivity. Qed.

Lemma includes_app_r (a b n : string) :
  includes b n = true → includes (a +:+ b) n = true.
Proof.
  intros H. induction a as [|c a IH]; [exact H|].
  change (String c a +:+ b) with (String c (a +:+ b)).
  rewrite includes_unfold, IH. apply orb_true_r.
Qed.

Lemma includes_app_l (a b n : string) :
  includes a n = true → includes (a +:+ b) n = true.
Proof.
  induction a as [|c a IH]; intros H.
  - rewrite includes_unfold in H. rewrite orb_false_r in H.
    destruct n; [|discriminate]. destruct b; reflexivity.
  - rewrite includes_unfold in H. apply orb_true_iff in H as [H|H].
    + change (String c a +:+ b) with (String c (a +:+ b)).
      rewrite includes_unfold.
      change (String c (a +:+ b)) with (String c a +:+ b).
      rewrite (prefix_app_l _ _ _ H). reflexivity.
    + change (String c a +:+ b) with (String c (a +:+ b)).
      rewrite includes_unfold, (IH H). apply orb_true_r.
Qed.

Lemma includes_concat (sep x : string) (l : list string) :
  In x l → includes (String.concat sep l) x = true.
Proof.
  induction l as [|a l IH]; [contradiction|].
  intros [->|Hin].
  - destruct l; simpl; [|apply includes_self_app].
    rewrite <- (append_nil_r x) at 1. apply includes_self_app.
  - destruct l as [|b l]; [contradiction|].
    change (String.concat sep (a :: b :: l))
      with (a +:+ sep +:+ String.concat sep (b :: l)).
    apply includes_app_r, includes_app_r, IH, Hin.
Qed.

End StringFacts.

(** ** More on the environment of the child *)

Module ChildEnvMore.
Import ChildEnv ChildEnvFacts ChildEnvKeys StringFacts.

(** X11. Every variable of the parent environment that [startBackend]
    does not set itself reaches the child unchanged, and a variable the
    parent does not have is not invented. [PYTHONPATH] is always the
    backend directory and [PYTHONUNBUFFERED] always [1], whatever the
    parent had there. *)
Theorem child_env_inherits_the_rest dev darwin dir_exists
    (penv : gmap string string) (p : Paths) :
  let env := child_env dev darwin dir_exists penv p in
  (∀ k : string, k ∉ overridden → env !! k = Some <$> penv !! k)
  ∧ env !! "PYTHONPATH" = Some (Some (backendPath p))
  ∧ env !! "PYTHONUNBUFFERED" = Some (Some "1").
Proof.
  cbv zeta. unfold child_env. split; [|split].
  - intros k Hk. rewrite remove_undefined_lookup. unfold env_literal.
    assert (Hne : ∀ key, key ∈ overridden → key ≠ k) by (intros key Hin ->; auto).
    rewrite !lookup_insert_ne by (apply Hne; unfold overridden; set_solver).
    rewrite lookup_fmap. destruct (penv !! k); reflexivity.
  - rewrite remove_undefined_lookup. unfold env_literal.
    rewrite !lookup_insert_ne by done. rewrite lookup_insert_eq. reflexivity.
  - rewrite remove_undefined_lookup. unfold env_literal.
    rewrite !lookup_insert_ne by done. rewrite lookup_insert_eq. reflexivity.
Qed.

Lemma extend_path_spec (dir_exists : string → bool) (l : list string) :
  ∀ acc,
    let r := foldl (fun acc pythonPath =>
                      if dir_exists pythonPath && negb (includes acc pythonPath)
                      then pythonPath +:+ ":" +:+ acc else acc) acc l in
    (∃ front, r = front +:+ acc)
    ∧ (∀ q, includes acc q = true → includes r q = true)
    ∧ (∀ q, In q l → dir_exists q = true → includes r q = true).
Proof.
  induction l as [|a l IH]; intros acc; cbv zeta.
  - cbn [foldl]. split; [by exists ""|]. split; [auto|contradiction].
  - cbn [foldl].
    set (acc' := if dir_exists a && negb (includes acc a)
                 then a +:+ ":" +:+ acc else acc).
    destruct (IH acc') as ((front & Hfront) & Hmono & Hall).
    assert (Hstep : (∃ f, acc' = f +:+ acc)
                    ∧ (∀ q, includes acc q = true → includes acc' q = true)
                    ∧ (dir_exists a = true → includes acc' a = true)).
    { unfold acc'. destruct (dir_exists a) eqn:Ha; simpl.
      - destruct (includes acc a) eqn:Hi; simpl.
        + split; [by exists ""|]. auto.
        + split; [exists (a +:+ ":"); by rewrite append_assoc|].
          split; [intros q Hq; by apply includes_app_r, includes_app_r|].
          intros _. apply includes_self_app.
      - split; [by exists ""|]. split; [auto|discriminate]. }
    destruct Hstep as ((f & Hf) & Hm & Ha).
    split; [|split].
    + exists (front +:+ f). rewrite Hfront, Hf, append_assoc. reflexivity.
    + auto.
    + intros q [<-|Hin] Hq; auto.
Qed.

(** X12. The child always receives a [PATH]: the inherited one, or the
    empty string when the parent has none. Only a packaged application
    on macOS changes it, and then only by putting directories in front:
    the inherited [PATH] stays at the end, and every Python directory
    that exists occurs in the result. *)
Theorem child_env_path dev darwin dir_exists
    (penv : gmap string string) (p : Paths) :
  let inherited := default "" (penv !! "PATH") in
  let path := pathEnv dev darwin dir_exists penv in
  child_env dev darwin dir_exists penv p !! "PATH" = Some (Some path)
  ∧ (∃ front, path = front +:+ inherited)
  ∧ (negb dev && darwin = false → path = inherited)
  ∧ (negb dev && darwin = true →
     ∀ q, In q pythonPaths → dir_exists q = true → includes path q = true).
Proof.
  cbv zeta. split.
  { unfold child_env. rewrite remove_undefined_lookup. unfold env_literal.
    rewrite !lookup_insert_ne by done. rewrite lookup_insert_eq. reflexivity. }
  unfold pathEnv.
  destruct (negb dev && darwin) eqn:Hmode.
  - destruct (extend_path_spec dir_exists pythonPaths (default "" (penv !! "PATH")))
      as (Hfront & _ & Hall).
    split; [exact Hfront|]. split; [discriminate|]. intros _. exact Hall.
  - split; [by exists ""|]. split; [reflexivity|discriminate].
Qed.

End ChildEnvMore.

(** ** More on the port reclaimer *)

Module PortReclaimerMore.
Import PortReclaimer PortReclaimerFacts StringFacts.

(** X13. [killExistingBackend] always settles, and never rejects: its
    promise resolves when the listing command ends if that fails or
    prints nothing (no kill command is issued then), and when the kill
    command ends otherwise, whether the kill succeeded or not. It issues
    at most two commands and calls [resolve] once or twice. *)
Theorem reclaimer_always_settles pf listing list_ms killError kill_ms :
  let r := killExistingBackend pf listing list_ms killError kill_ms in
  (∃ t, settled_at r = Some t ∧ (t = list_ms ∨ t = list_ms + kill_ms))
  ∧ 1 ≤ length (resolve_calls r) ≤ 2
  ∧ 1 ≤ length (commands r) ≤ 2
  ∧ (exec_error listing = true ∨ trim (exec_stdout listing) = "" →
     commands r = [(0, list_command pf)] ∧ settled_at r = Some list_ms)
  ∧ (length (commands r) = 2 → settled_at r = Some (list_ms + kill_ms)).
Proof.
  cbv zeta. unfold killExistingBackend.
  destruct (exec_error listing) eqn:He; simpl.
  { unfold settled_at. simpl.
    repeat split; eauto; try lia; try discriminate. }
  destruct (trim (exec_stdout listing)) as [|c rest] eqn:Ht; simpl.
  { unfold settled_at. simpl.
    repeat split; eauto; try lia; try discriminate. }
  destruct (parse_pids (exec_stdout listing)) as [|pid pids] eqn:Hp; simpl.
  { unfold settled_at. simpl.
    repeat split; eauto; try lia; try discriminate;
      try (intros [?|?]; congruence). }
  unfold settled_at, on_kill_done. destruct killError; simpl.
  - repeat split; eauto; try lia;
      match goal with H : _ ∨ _ |- _ => destruct H; discriminate end.
  - rewrite Nat.min_l by lia.
    repeat split; eauto; try lia;
      match goal with H : _ ∨ _ |- _ => destruct H; discriminate end.
Qed.

Lemma trim_start_head (s : string) (c : ascii) (r : string) :
  trim_start s = String c r → is_space c = false.
Proof.
  induction s as [|a s IH]; simpl; [discriminate|].
  destruct (is_space a) eqn:Ha; [exact IH|]. intros [= <- _]. exact Ha.
Qed.

Lemma trim_end_head (c : ascii) (s : string) :
  is_space c = false → ∃ r, trim_end (String c s) = String c r.
Proof.
  intros Hc. simpl. destruct (trim_end s); rewrite ?Hc; eauto.
Qed.

Lemma trim_end_keeps_head (s : string) (c : ascii) (r : string) :
  trim_end s = String c r → ∃ r', s = String c r'.
Proof.
  destruct s as [|a s]; simpl; [discriminate|].
  destruct (trim_end s); [destruct (is_space a); [discriminate|]|];
    intros [= <- _]; eauto.
Qed.

(** A trimmed string does not begin with white space. *)
Lemma trim_head (s : string) (c : ascii) (r : string) :
  trim s = String c r → is_space c = false.
Proof.
  unfold trim. intros H. apply trim_end_keeps_head in H as [r' H].
  by apply trim_start_head in H.
Qed.

Lemma trim_non_space_head (c : ascii) (s : string) :
  is_space c = false → ∃ r, trim (String c s) = String c r.
Proof.
  intros Hc. unfold trim. simpl. rewrite Hc. by apply trim_end_head.
Qed.

Lemma rev_app_append (s t : string) :
  String.rev_app s t = String.rev s +:+ t.
Proof.
  unfold String.rev. revert t. induction s as [|a s IH]; intros t; [reflexivity|].
  cbn [String.rev_app]. rewrite (IH (String a t)), (IH (String a "")).
  rewrite append_assoc. reflexivity.
Qed.

Lemma rev_cons (c : ascii) (s : string) :
  String.rev (String c s) = String.rev s +:+ String c "".
Proof. unfold String.rev at 1. cbn [String.rev_app]. apply rev_app_append. Qed.

Lemma split_lines_aux_head (s cur : string) :
  ∃ line rest, split_lines_aux cur s = (String.rev cur +:+ line) :: rest.
Proof.
  revert cur. induction s as [|a s IH]; intros cur; simpl.
  - exists "", []. by rewrite append_nil_r.
  - destruct (Ascii.eqb a (ascii_of_nat 10)).
    + exists "", (split_lines_aux "" s). by rewrite append_nil_r.
    + destruct (IH (String a cur)) as (line & rest & ->).
      exists (String a line), rest. rewrite rev_cons, append_assoc. reflexivity.
Qed.

(** X14. The listing yields no process exactly when its trimmed output is
    empty: whenever [lsof] or [netstat] printed anything but white space,
    at least one entry is passed to the kill command, so the second
    [pids.length === 0] exit of [killExistingBackend] is never taken.
    No entry is blank. *)
Theorem parse_pids_empty_iff_blank (stdout : string) :
  (parse_pids stdout = [] ↔ trim stdout = "")
  ∧ Forall (fun pid => trim pid ≠ "") (parse_pids stdout).
Proof.
  split.
  - split; [|apply parse_pids_blank].
    intros Hnil. destruct (trim stdout) as [|c rest] eqn:Ht; [reflexivity|].
    exfalso. pose proof (trim_head _ _ _ Ht) as Hc.
    assert (Hnl : Ascii.eqb c (ascii_of_nat 10) = false).
    { destruct (Ascii.eqb_spec c (ascii_of_nat 10)) as [->|]; [discriminate|done]. }
    assert (Hsplit : ∃ line more, split_lines (String c rest) = String c line :: more).
    { unfold split_lines. cbn [split_lines_aux]. rewrite Hnl.
      destruct (split_lines_aux_head rest (String c "")) as (line & more & Hs).
      exists line, more. rewrite Hs. reflexivity. }
    destruct Hsplit as (line & more & Hsplit).
    destruct (trim_non_space_head c line Hc) as [r Hr].
    unfold parse_pids in Hnil. rewrite Ht, Hsplit, filter_cons in Hnil.
    rewrite decide_True in Hnil by (rewrite Hr; exact I). discriminate.
  - unfold parse_pids. apply Forall_forall. intros pid Hin.
    apply list_elem_of_filter in Hin as [Hne _].
    destruct (trim pid); [contradiction|discriminate].
Qed.

(** X15. When the listing reports processes, one kill command is issued,
    when the listing has ended, and it names every one of them; on macOS
    and Linux it is [kill -9] followed by the entries. *)
Theorem kill_command_names_every_pid pf listing list_ms killError kill_ms pid :
  exec_error listing = false →
  pid ∈ parse_pids (exec_stdout listing) →
  ∃ killCommand,
    commands (killExistingBackend pf listing list_ms killError kill_ms)
    = [(0, list_command pf); (list_ms, killCommand)]
    ∧ includes killCommand pid = true
    ∧ (unix_like pf = true →
       killCommand
       = "kill -9 " +:+ String.concat " " (parse_pids (exec_stdout listing))).
Proof.
  intros He Hin.
  assert (Hne : parse_pids (exec_stdout listing) ≠ []).
  { intros Hnil. rewrite Hnil in Hin. by apply elem_of_nil in Hin. }
  destruct (signals_precede_spawn pf listing list_ms killError kill_ms 0 He Hne)
    as [Hcmd _].
  eexists. split; [exact Hcmd|]. apply list_elem_of_In in Hin.
  unfold kill_command. destruct (unix_like pf); split;
    try (apply includes_app_r, includes_concat, Hin); try reflexivity.
  discriminate.
Qed.

Lemma kill_command_names_every_pid_witness :
  exec_error two_pids = false
  ∧ "456" ∈ parse_pids (exec_stdout two_pids)
  ∧ ∃ killCommand,
      commands (killExistingBackend Linux two_pids 40 true 15)
      = [(0, list_command Linux); (40, killCommand)]
      ∧ includes killCommand "456" = true
      ∧ (unix_like Linux = true →
         killCommand
         = "kill -9 " +:+ String.concat " " (parse_pids (exec_stdout two_pids))).
Proof.
  split; [reflexivity|]. split; [apply list_elem_of_In; vm_compute; auto|].
  apply (kill_command_names_every_pid Linux two_pids 40 true 15 "456");
    [reflexivity | apply list_elem_of_In; vm_compute; auto].
Defined.

End PortReclaimerMore.

(** ** Waiting for the backend *)

Module LifecycleFacts.
Import Supervisor Lifecycle.

Lemma wait_loop_spec probe : ∀ remaining i,
  let w := wait_loop probe i remaining in
  requests w ≤ remaining
  ∧ pauses w + b2n (ready w) = requests w
  ∧ (ready w = false →
     requests w = remaining ∧ ∀ k, k < remaining → accepted (probe (i + k)) = false)
  ∧ (ready w = true →
     accepted (probe (i + pauses w)) = true
     ∧ ∀ k, k < pauses w → accepted (probe (i + k)) = false).
Proof.
  induction remaining as [|n IH]; intros i; cbv zeta; simpl.
  - repeat split; auto; try lia; try discriminate; intros; lia.
  - destruct (accepted (probe i)) eqn:Hi; simpl.
    + repeat split; auto; try lia; try discriminate;
        try (by rewrite Nat.add_0_r); intros; lia.
    + destruct (IH (S i)) as (Hle & Hsum & Hno & Hyes).
      split; [lia|]. split; [lia|]. split.
      * intros Hr. destruct (Hno Hr) as [Hreq Hall]. split; [lia|].
        intros [|k] Hk; [by rewrite Nat.add_0_r|].
        replace (i + S k) with (S i + k) by lia. apply Hall. lia.
      * intros Hr. destruct (Hyes Hr) as [Hacc Hall]. split.
        -- replace (i + S (pauses (wait_loop probe (S i) n)))
             with (S i + pauses (wait_loop probe (S i) n)) by lia. exact Hacc.
        -- intros [|k] Hk; [by rewrite Nat.add_0_r|].
           replace (i + S k) with (S i + k) by lia. apply Hall. lia.
Qed.

(** X16. [waitForBackend] makes at most [maxAttempts] health requests and
    stops at the first one answered with status 200: it returns [true]
    exactly when one of the first [maxAttempts] requests is so answered,
    having made one request more than the pauses it took, all earlier
    requests having failed. When it returns [false] it has made all
    [maxAttempts] requests and has paused after every one of them, the
    last included. *)
Theorem waitForBackend_first_success (probe : nat → ProbeResult) (maxAttempts : nat) :
  let w := waitForBackend probe maxAttempts in
  requests w ≤ maxAttempts
  ∧ (ready w = true ↔ ∃ k, k < maxAttempts ∧ accepted (probe k) = true)
  ∧ (ready w = true →
     requests w = S (pauses w)
     ∧ accepted (probe (pauses w)) = true
     ∧ ∀ k, k < pauses w → accepted (probe k) = false)
  ∧ (ready w = false → requests w = maxAttempts ∧ pauses w = maxAttempts).
Proof.
  cbv zeta. unfold waitForBackend.
  destruct (wait_loop_spec probe maxAttempts 0) as (Hle & Hsum & Hno & Hyes).
  simpl in *. split; [exact Hle|]. split; [|split].
  - split.
    + intros Hr. destruct (Hyes Hr) as [Hacc _].
      exists (pauses (wait_loop probe 0 maxAttempts)). split; [|exact Hacc].
      rewrite Hr in Hsum. simpl in Hsum. lia.
    + intros (k & Hk & Hacc).
      destruct (ready (wait_loop probe 0 maxAttempts)) eqn:Hr; [reflexivity|].
      destruct (Hno eq_refl) as [_ Hall]. rewrite (Hall k Hk) in Hacc. discriminate.
  - intros Hr. destruct (Hyes Hr) as [Hacc Hall]. rewrite Hr in Hsum. simpl in Hsum.
    split; [lia|]. auto.
  - intros Hr. destruct (Hno Hr) as [Hreq _]. rewrite Hr in Hsum. simpl in Hsum.
    split; [exact Hreq|lia].
Qed.

Example waitForBackend_third_request :
  waitForBackend third_time_lucky default_attempts
  = {| ready := true; requests := 3; pauses := 2 |}.
Proof. reflexivity. Qed.

Lemma waitForBackend_ready_iff probe n :
  ready (waitForBackend probe n) = true
  ↔ ∃ k, k < n ∧ accepted (probe k) = true.
Proof.
  unfold waitForBackend.
  destruct (wait_loop_spec probe n 0) as (Hle & Hsum & Hno & Hyes). simpl in *.
  split.
  - intros Hr. destruct (Hyes Hr) as [Hacc _].
    exists (pauses (wait_loop probe 0 n)). split; [|exact Hacc].
    rewrite Hr in Hsum. simpl in Hsum. lia.
  - intros (k & Hk & Hacc).
    destruct (ready (wait_loop probe 0 n)) eqn:Hr; [reflexivity|].
    destruct (Hno eq_refl) as [_ Hall]. rewrite (Hall k Hk) in Hacc. discriminate.
Qed.

(** X17. The start-up callback of [app.whenReady] creates the main
    window exactly when [startBackend] resolved and one of the next 30
    health requests was answered with status 200, and quits the
    application otherwise; [restart-backend] reports success under that
    same condition, returns a rejection of [startBackend] as its [error]
    text, and never reports success and an error together. The
    [activate] handler, the other caller of [createWindow], asks for
    neither: it creates a window whenever none is open. *)
Theorem window_at_startup_needs_status_200
    (outcome : Outcome) (probe : nat → ProbeResult) :
  (on_app_ready outcome probe = CreateWindow ↔
     outcome = Ready ∧ ∃ k, k < 30 ∧ probe k = Responded 200)
  ∧ (on_app_ready outcome probe = AppQuit ↔
     ¬ (outcome = Ready ∧ ∃ k, k < 30 ∧ probe k = Responded 200))
  ∧ (success (ipc_restart_backend outcome probe) = true ↔
     outcome = Ready ∧ ∃ k, k < 30 ∧ probe k = Responded 200)
  ∧ (∀ m, error (ipc_restart_backend outcome probe) = Some m ↔ outcome = Failed m)
  ∧ (success (ipc_restart_backend outcome probe) = true →
     error (ipc_restart_backend outcome probe) = None)
  ∧ (∀ open_windows,
       (on_activate open_windows = Some CreateWindow ↔ open_windows = 0)
       ∧ (on_activate open_windows = None ↔ open_windows ≠ 0)).
Proof.
  assert (Hacc : ∀ r, accepted r = true ↔ r = Responded 200).
  { intros [c| |]; simpl; split; try discriminate.
    - intros Hc. apply Z.eqb_eq in Hc. by subst.
    - intros [= ->]. reflexivity. }
  assert (Hready : ready (waitForBackend probe default_attempts) = true
                   ↔ ∃ k, k < 30 ∧ probe k = Responded 200).
  { rewrite waitForBackend_ready_iff. unfold default_attempts.
    split; intros (k & Hk & H); exists k; (split; [exact Hk|]); by apply Hacc. }
  assert (Hact : ∀ open_windows,
            (on_activate open_windows = Some CreateWindow ↔ open_windows = 0)
            ∧ (on_activate open_windows = None ↔ open_windows ≠ 0)).
  { intros [|n]; unfold on_activate; simpl; split; split;
      try discriminate; try congruence; auto. }
  unfold on_app_ready, ipc_restart_backend.
  destruct outcome as [|m0]; simpl.
  - rewrite <- Hready.
    destruct (ready (waitForBackend probe default_attempts)).
    + split; [tauto|]. split; [split; [discriminate|intros H; exfalso; auto]|].
      split; [tauto|]. split; [intros m; split; discriminate|].
      split; [reflexivity|exact Hact].
    + split; [split; [discriminate|intros [_ ?]; discriminate]|].
      split; [split; [intros _ [_ ?]; discriminate|reflexivity]|].
      split; [split; [discriminate|intros [_ ?]; discriminate]|].
      split; [intros m; split; discriminate|].
      split; [discriminate|exact Hact].
  - split; [split; [discriminate|intros [? _]; discriminate]|].
    split; [split; [intros _ [? _]; discriminate|reflexivity]|].
    split; [split; [discriminate|intros [? _]; discriminate]|].
    split; [intros m; split; congruence|].
    split; [discriminate|exact Hact].
Qed.

End LifecycleFacts.

(** ** Whole sessions *)

Module SessionFacts.
Import Supervisor SupervisorFacts SessionHistory.

#[local] Set Warnings "-clear-no-such-hyp".
#[local] Arguments includes : simpl never.
#[local] Arguments join_lines : simpl never.
#[local] Arguments pretty : simpl never.

(** X18. Over every run of a session and for every attempt, [resolve()]
    has been called exactly as often as the attempt's [backendReady] flag
    says, so at most once, and the flag is never taken back by later
    events: the guard of [resolveWithCleanup] holds against every order
    of stream data, timers, health results, exits and restarts. *)
Theorem resolve_called_exactly_when_ready (evs : list Event) (i : nat) :
  let s := exec init evs in
  count is_resolve_call (calls_of i (trace init evs)) = measure_at ready_flag i s
  ∧ count is_resolve_call (calls_of i (trace init evs)) ≤ 1
  ∧ (∀ more, measure_at ready_flag i s ≤ measure_at ready_flag i (exec s more))
  ∧ (∀ more, count is_resolve_call (calls_of i (trace s more)) ≤ 1 - measure_at ready_flag i s).
Proof.
  cbv zeta. unfold ready_flag.
  pose proof (resolve_ledger init evs i) as H.
  pose proof (measure_b2n_le backendReady i (exec init evs)) as Hle.
  assert (H0 : measure_at (fun a => b2n (backendReady a)) i init = 0) by reflexivity.
  repeat split; try lia.
  - intros more. pose proof (resolve_ledger (exec init evs) more i). lia.
  - intros more. pose proof (resolve_ledger (exec init evs) more i) as H1.
    pose proof (measure_b2n_le backendReady i (exec (exec init evs) more)). lia.
Qed.

Lemma react_deadline_gets bp g a e :
  enabled a e = true →
  related false
    (count is_deadline_get (react bp g a e).2 + b2n (negb (deadlineTimer a)) + 0)
    (b2n (negb (deadlineTimer (react bp g a e).1.2)) + 0).
Proof.
  intros Hen. unfold related.
  destruct e as [?output|?output| |[] [?status| |]| |?st|?message];
    simpl in Hen; run_handlers; bools; unfold count; simpl;
    try destruct (deadlineTimer a); simpl; try lia; try discriminate.
Qed.

Lemma deadline_probes_le_one evs i : deadline_probes i (trace init evs) ≤ 1.
Proof.
  assert (H := trace_ledger false is_deadline_get
                 (fun a => b2n (negb (deadlineTimer a))) (fun _ => 0)
                 (conj eq_refl eq_refl) (fun _ _ => conj eq_refl eq_refl)
                 react_deadline_gets evs init i).
  cbv beta in H. unfold related in H. rewrite !measure_zero in H.
  pose proof (measure_b2n_le (fun a => negb (deadlineTimer a)) i (exec init evs)).
  unfold measure_at in H at 1. simpl in H. unfold deadline_probes. lia.
Qed.

Lemma count_health_split cs :
  count is_health_get cs = count is_marker_get cs + count is_deadline_get cs.
Proof.
  unfold count. induction cs as [|c cs IH]; [reflexivity|].
  simpl. destruct c as [| | | |[]|]; simpl; lia.
Qed.

(** X19. Over every run, one attempt arms at most one 2 s timer and
    sends at most two health requests: at most one from the 2 s callback
    and at most one from the 30 s callback, however many marker lines,
    exits or restarts occur. *)
Theorem health_requests_bounded (evs : list Event) (i : nat) :
  arms i (trace init evs) ≤ 1
  ∧ marker_probes i (trace init evs) ≤ arms i (trace init evs)
  ∧ deadline_probes i (trace init evs) ≤ 1
  ∧ health_requests i (trace init evs)
    = marker_probes i (trace init evs) + deadline_probes i (trace init evs)
  ∧ health_requests i (trace init evs) ≤ 2.
Proof.
  pose proof (arms_ledger init evs i) as Harm.
  pose proof (measure_b2n_le healthCheckScheduled i (exec init evs)) as Hle.
  assert (H0 : measure_at (fun a => b2n (healthCheckScheduled a)) i init = 0)
    by reflexivity.
  assert (Hm := trace_ledger false is_marker_get
                  (fun a => b2n (healthCheckScheduled a)) debounceTimers
                  (conj eq_refl eq_refl) (fun _ _ => conj eq_refl eq_refl)
                  react_marker_gets evs init i).
  cbv beta in Hm. unfold related in Hm.
  assert (Hd0 : measure_at debounceTimers i init = 0) by reflexivity.
  pose proof (deadline_probes_le_one evs i) as Hd.
  assert (Hsplit : health_requests i (trace init evs)
                   = marker_probes i (trace init evs) + deadline_probes i (trace init evs)).
  { unfold health_requests, marker_probes, deadline_probes. apply count_health_split. }
  unfold marker_probes in *. unfold arms in *.
  repeat split; try lia.
Qed.

(** X20. A launch attempt cannot stay pending past its 30 s timer: in
    every reachable session, an attempt whose timer is no longer armed
    (it fired or was cleared) and whose last-chance health request is not
    in flight has a settled promise. *)
Theorem attempt_settles_after_deadline
    (evs : list Event) (i : nat) (a : Attempt) :
  attempts (exec init evs) !! i = Some a →
  deadlineTimer a = false →
  deadlineProbes a = 0 →
  ∃ o, promise a = Settled o.
Proof.
  intros Ha Ht Hp.
  destruct (settled_after_deadline evs i a Ha) as [_ H].
  destruct (H Ht) as [Hs|Hs]; [|lia].
  destruct (promise a) as [|o]; [congruence|eauto].
Qed.

Lemma attempt_settles_after_deadline_witness :
  ∃ o, promise ready_attempt = Settled o.
Proof.
  apply (attempt_settles_after_deadline (take 4 crash_after_ready) 0 ready_attempt);
    vm_compute; reflexivity.
Defined.


Lemma react_starts bp g a e :
  scheduledStarts (react bp g a e).1.1 + backendRestartCount g
  = scheduledStarts g + backendRestartCount (react bp g a e).1.1.
Proof. handler_cases e; simpl; lia. Qed.

Lemma step_spawns s e :
  spawns (step s e).2 + length (attempts s) = length (attempts (step s e).1)
  ∧ spawns (step s e).2 + aborts (step s e).2 + pending_starts (step s e).1
      + restartCount s
    = pending_starts s + restartCount (step s e).1 + forced [e].
Proof.
  unfold spawns, aborts, forced, pending_starts, restartCount, count.
  destruct e as [i ae| | | |]; simpl.
  - destruct (attempts s !! i) as [a|] eqn:Ha; simpl; [|lia].
    destruct (enabled a ae) eqn:Hen; simpl; [|lia].
    pose proof (react_starts (current_child s) (globals s) a ae) as Hre.
    destruct (react _ _ _ _) as [[g' a'] cs]. simpl in *.
    rewrite length_insert.
    assert (Hnone : ∀ p, (∀ c, p (On i c) = false)
                         → length (List.filter p (On i <$> cs)) = 0).
    { intros p Hp. induction cs as [|c cs IH]; [reflexivity|].
      simpl. rewrite Hp. exact IH. }
    rewrite !Hnone by reflexivity. lia.
  - destruct (scheduledStarts (globals s)) eqn:Hs; simpl; [lia|].
    rewrite length_app. simpl. lia.
  - destruct (scheduledStarts (globals s)) eqn:Hs; simpl; lia.
  - unfold kill_current. destruct (backendProcess s); simpl;
      rewrite ?length_alter; lia.
  - unfold kill_current. destruct (backendProcess s); simpl;
      rewrite ?length_alter; lia.
Qed.

Lemma trace_spawns evs : ∀ s,
  spawns (trace s evs) + length (attempts s) = length (attempts (exec s evs))
  ∧ spawns (trace s evs) + aborts (trace s evs) + pending_starts (exec s evs)
      + restartCount s
    = pending_starts s + restartCount (exec s evs) + forced evs.
Proof.
  induction evs as [|e evs IH]; intros s.
  - simpl. unfold spawns, aborts, forced, count. simpl. lia.
  - destruct (step_spawns s e) as [H1 H2].
    destruct (IH (step s e).1) as [H3 H4].
    change (e :: evs) with ([e] ++ evs).
    unfold forced in *. rewrite count_app.
    change (trace s ([e] ++ evs)) with ((step s e).2 ++ trace (step s e).1 evs).
    change (exec s ([e] ++ evs)) with (exec (step s e).1 evs).
    unfold spawns, aborts in *. rewrite !count_app. lia.
Qed.

(** X21. Children are spawned for three reasons only: the start of the
    application, the one automatic restart, and the restarts the front
    end asks for. In every run the attempts made are the children
    spawned, and spawned, abandoned and still pending launches add up to
    one plus the automatic restarts plus the forced restarts; so a
    session without forced restarts spawns at most two children. *)
Theorem spawn_accounting (evs : list Event) :
  let s := exec init evs in
  length (attempts s) = spawns (trace init evs)
  ∧ spawns (trace init evs) + aborts (trace init evs) + pending_starts s
    = 1 + restartCount s + forced evs
  ∧ spawns (trace init evs) ≤ 2 + forced evs
  ∧ (forced evs = 0 → length (attempts s) ≤ 2).
Proof.
  cbv zeta. destruct (trace_spawns evs init) as [H1 H2].
  pose proof (exec_restart_bound evs init) as Hb.
  unfold restartCount, pending_starts in *. simpl in *.
  specialize (Hb (Nat.le_0_l _)).
  repeat split; lia.
Qed.

Lemma react_output bp g a e :
  stdoutOutput (react bp g a e).1.2
  = stdoutOutput a ++ match e with StdoutData output => [output] | _ => [] end
  ∧ errorOutput (react bp g a e).1.2
    = errorOutput a ++ match e with StderrData output => [output] | _ => [] end.
Proof. handler_cases e; rewrite ?app_nil_r; auto. Qed.

Lemma step_output s e i a :
  attempts s !! i = Some a →
  ∃ b, attempts (step s e).1 !! i = Some b
       ∧ stdoutOutput b = stdoutOutput a ++ stdout_of i [e]
       ∧ errorOutput b = errorOutput a ++ stderr_of i [e].
Proof.
  intros Ha.
  assert (Hsame : ∃ b, attempts s !! i = Some b
                       ∧ stdoutOutput b = stdoutOutput a ++ []
                       ∧ errorOutput b = errorOutput a ++ []).
  { exists a. rewrite !app_nil_r. auto. }
  assert (Hkill : ∀ k, ∃ b,
    alter (fun a => set_child (kill (child a)) a) k (attempts s) !! i = Some b
    ∧ stdoutOutput b = stdoutOutput a ++ []
    ∧ errorOutput b = errorOutput a ++ []).
  { intros k. rewrite list_lookup_alter, !app_nil_r.
    case_decide; subst; rewrite Ha; simpl; eauto. }
  destruct e as [j ae| | | |]; unfold stdout_of, stderr_of; simpl.
  - destruct (Nat.eqb_spec i j) as [<-|Hne].
    + rewrite Ha. destruct (enabled a ae) eqn:Hen.
      * destruct (react_output (current_child s) (globals s) a ae) as [Ho He].
        destruct (react _ _ _ _) as [[g' a'] cs]. simpl in *.
        exists a'. split; [apply list_lookup_insert_eq; eapply lookup_lt_Some, Ha|].
        rewrite Ho, He. destruct ae; auto.
      * destruct ae; simpl in Hen; try discriminate; exact Hsame.
    + destruct (attempts s !! j) as [a0|] eqn:Hj; simpl.
      * destruct (enabled a0 ae); simpl.
        -- destruct (react _ _ _ _) as [[g' a'] cs]. simpl.
           rewrite list_lookup_insert_ne by congruence.
           destruct ae; exact Hsame.
        -- destruct ae; exact Hsame.
      * destruct ae; exact Hsame.
  - destruct (scheduledStarts (globals s)); simpl; [exact Hsame|].
    exists a. rewrite !app_nil_r. split; [|auto].
    apply lookup_app_l_Some. exact Ha.
  - destruct (scheduledStarts (globals s)); simpl; exact Hsame.
  - unfold kill_current. destruct (backendProcess s) as [k|]; simpl; auto.
  - unfold kill_current. destruct (backendProcess s) as [k|]; simpl; auto.
Qed.

Lemma stream_app i evs1 evs2 :
  stdout_of i (evs1 ++ evs2) = stdout_of i evs1 ++ stdout_of i evs2
  ∧ stderr_of i (evs1 ++ evs2) = stderr_of i evs1 ++ stderr_of i evs2.
Proof. unfold stdout_of, stderr_of. split; apply omap_app. Qed.

(** X22. Every chunk the child writes is kept: after any further events,
    the two buffers of an attempt are what they were followed by the
    chunks delivered to it on stdout and on stderr respectively, in order
    of arrival. Nothing is dropped, reordered or moved to the other
    stream, before or after readiness, and the buffers are never
    trimmed. *)
Theorem captured_output_is_stream_history
    (s : Session) (evs : list Event) (i : nat) (a : Attempt) :
  attempts s !! i = Some a →
  ∃ b, attempts (exec s evs) !! i = Some b
       ∧ stdoutOutput b = stdoutOutput a ++ stdout_of i evs
       ∧ errorOutput b = errorOutput a ++ stderr_of i evs.
Proof.
  revert s a. induction evs as [|e evs IH]; intros s a Ha.
  - exists a. rewrite !app_nil_r. auto.
  - destruct (step_output s e i a Ha) as (b & Hb & Ho & He).
    destruct (IH (step s e).1 b Hb) as (c & Hc & Ho' & He').
    exists c. split; [exact Hc|].
    destruct (stream_app i [e] evs) as [Hs1 Hs2].
    change (e :: evs) with ([e] ++ evs).
    rewrite Hs1, Hs2, Ho', He', Ho, He, <- !app_assoc. auto.
Qed.

Lemma captured_output_is_stream_history_witness :
  ∃ b, attempts (exec first_spawn chatty_start) !! 0 = Some b
       ∧ stdoutOutput b
         = stdoutOutput new_attempt
             ++ ["INFO:     Started server process [4242]"; uvicorn_line]
       ∧ errorOutput b
         = errorOutput new_attempt
             ++ ["INFO  [alembic.runtime.migration] Context impl SQLiteImpl.";
                 "INFO:     127.0.0.1:51234 - GET /health HTTP/1.1 200 OK"].
Proof.
  apply (captured_output_is_stream_history first_spawn chatty_start 0 new_attempt).
  reflexivity.
Defined.

Lemma step_handle s e :
  (∀ i, backendProcess s = Some i → S i = length (attempts s)) →
  ∀ i, backendProcess (step s e).1 = Some i → S i = length (attempts (step s e).1).
Proof.
  intros Hs i. destruct e as [j ae| | | |]; simpl.
  - destruct (attempts s !! j) as [a0|]; simpl; auto.
    destruct (enabled a0 ae); simpl; auto.
    destruct (react _ _ _ _) as [[g' a'] cs]. simpl.
    rewrite length_insert. auto.
  - destruct (scheduledStarts (globals s)); simpl; auto.
    intros [= <-]. rewrite length_app. simpl. lia.
  - destruct (scheduledStarts (globals s)); simpl; auto.
  - unfold kill_current. destruct (backendProcess s) eqn:Hb; simpl;
      rewrite ?Hb; intros; discriminate.
  - unfold kill_current. destruct (backendProcess s) eqn:Hb; simpl;
      rewrite ?Hb; intros; discriminate.
Qed.

Lemma exec_handle evs : ∀ s,
  (∀ i, backendProcess s = Some i → S i = length (attempts s)) →
  ∀ i, backendProcess (exec s evs) = Some i → S i = length (attempts (exec s evs)).
Proof.
  induction evs as [|e evs IH]; intros s Hs; simpl; [exact Hs|].
  apply IH, step_handle, Hs.
Qed.

Lemma step_killed s e i :
  Killed i ∈ (step s e).2 →
  (e = IpcRestartBackend ∨ e = AppKillsBackend)
  ∧ backendProcess s = Some i
  ∧ backendProcess (step s e).1 = None
  ∧ attempts (step s e).1
    = alter (fun a => set_child (kill (child a)) a) i (attempts s).
Proof.
  destruct e as [j ae| | | |]; simpl.
  - destruct (attempts s !! j) as [a0|]; simpl; [|by intros ?%elem_of_nil].
    destruct (enabled a0 ae); simpl; [|by intros ?%elem_of_nil].
    destruct (react _ _ _ _) as [[g' a'] cs]. simpl.
    intros H. apply list_elem_of_fmap in H as (c & ? & _). discriminate.
  - destruct (scheduledStarts (globals s)); simpl; [by intros ?%elem_of_nil|].
    intros H. apply elem_of_cons in H as [?|H]; [discriminate|].
    by apply elem_of_nil in H.
  - destruct (scheduledStarts (globals s)); simpl; [by intros ?%elem_of_nil|].
    intros H. apply elem_of_cons in H as [?|H]; [discriminate|].
    by apply elem_of_nil in H.
  - unfold kill_current. destruct (backendProcess s) as [k|]; simpl;
      [|by intros ?%elem_of_nil].
    intros H. apply elem_of_cons in H as [[= <-]|H]; [auto|].
    by apply elem_of_nil in H.
  - unfold kill_current. destruct (backendProcess s) as [k|]; simpl;
      [|by intros ?%elem_of_nil].
    intros H. apply elem_of_cons in H as [[= <-]|H]; [auto|].
    by apply elem_of_nil in H.
Qed.

(** X23. In every reachable session the module-level [backendProcess]
    is [null] or the child spawned last. [kill()] is applied only
    through it, by the restart handler and the two shutdown handlers: it
    goes to the most recent child and to no other, it leaves the handle
    [null], and no callback of an attempt (exit, timers, health results)
    ever kills a child or changes the handle. *)
Theorem handle_is_latest_child (evs : list Event) :
  let s := exec init evs in
  (∀ i, backendProcess s = Some i → S i = length (attempts s))
  ∧ (∀ e i, Killed i ∈ (step s e).2 →
       (e = IpcRestartBackend ∨ e = AppKillsBackend)
       ∧ backendProcess s = Some i
       ∧ S i = length (attempts s)
       ∧ backendProcess (step s e).1 = None
       ∧ ∀ j, j ≠ i → attempts (step s e).1 !! j = attempts s !! j)
  ∧ (∀ i ae, backendProcess (step s (At i ae)).1 = backendProcess s
             ∧ ∀ j, Killed j ∉ (step s (At i ae)).2).
Proof.
  cbv zeta.
  assert (Hh : ∀ i, backendProcess (exec init evs) = Some i
                    → S i = length (attempts (exec init evs))).
  { apply exec_handle. intros i. discriminate. }
  split; [exact Hh|]. split.
  - intros e i Hk. destruct (step_killed _ _ _ Hk) as (He & Hb & Hn & Ha).
    repeat split; auto.
    intros j Hj. rewrite Ha. apply list_lookup_alter_ne. congruence.
  - intros i ae. split.
    + simpl. destruct (attempts (exec init evs) !! i) as [a0|]; simpl; auto.
      destruct (enabled a0 ae); simpl; auto.
      destruct (react _ _ _ _) as [[g' a'] cs]. reflexivity.
    + intros j Hk. apply step_killed in Hk as ([?|?] & _); discriminate.
Qed.



Lemma timeout_lines_length bp a :
  length (timeout_lines bp a)
  = 7 + Nat.min 50 (length (stdoutOutput a)) + Nat.min 50 (length (errorOutput a)).
Proof.
  unfold timeout_lines. rewrite !length_app, !slice_last_length. simpl. lia.
Qed.

(** X25. The timeout report. When the 30 s timer fires for an attempt
    that is not ready and the module-level handle is [null], or holds a
    child that was killed or has an exit code, the callback clears the
    timer variable and rejects with the timeout report: seven fixed
    lines and at most the last 50 chunks of each stream, so at most 107
    entries whatever the child has printed. The attempt is left not
    ready, and the flags and counters of the session are untouched. *)
Theorem deadline_rejects_with_bounded_report
    (s : Session) (i : nat) (a : Attempt) :
  attempts s !! i = Some a →
  backendReady a = false →
  deadlineTimer a = true →
  still_running (current_child s) = false →
  let r := step s (At i DeadlineFires) in
  let report := timeout_lines (current_child s) a in
  calls_of i r.2
  = (if timeoutId a then [ClearTimeout] else []) ++ [CallReject (join_lines report)]
  ∧ length report ≤ 107
  ∧ (∃ old, stdoutOutput a = old ++ slice_last 50 (stdoutOutput a))
  ∧ (∃ old, errorOutput a = old ++ slice_last 50 (errorOutput a))
  ∧ globals r.1 = globals s
  ∧ ∃ b, attempts r.1 !! i = Some b
         ∧ backendReady b = false
         ∧ deadlineTimer b = false
         ∧ timeoutId b = false
         ∧ (promise a = Pending → promise b = Settled (Failed (join_lines report))).
Proof.
  intros Ha Hr Ht Hrun. cbv zeta.
  assert (Hlt : i < length (attempts s)) by (eapply lookup_lt_Some, Ha).
  rewrite (step_at s i DeadlineFires a Ha Ht). cbn [fst snd globals attempts].
  rewrite calls_of_same.
  pose proof (timeout_lines_length (current_child s) a) as Hlen.
  split; [|split; [lia|split; [|split]]].
  - unfold_handlers. simpl. rewrite Hr, Hrun. simpl.
    destruct (timeoutId a); destruct (promise a); reflexivity.
  - exists (take (length (stdoutOutput a) - 50) (stdoutOutput a)).
    symmetry. apply slice_last_suffix.
  - exists (take (length (errorOutput a) - 50) (errorOutput a)).
    symmetry. apply slice_last_suffix.
  - split.
    + unfold_handlers. simpl. rewrite Hr, Hrun. simpl.
      destruct (timeoutId a); destruct (promise a); reflexivity.
    + eexists. split; [apply list_lookup_insert_eq; exact Hlt|].
      unfold_handlers. simpl. rewrite Hr, Hrun. simpl.
      destruct (timeoutId a) eqn:Hid; destruct (promise a) eqn:Hp; simpl;
        repeat split; auto; try congruence.
Qed.

Lemma deadline_rejects_with_bounded_report_witness :
  calls_of 0 (step (exec init [Spawn; AppKillsBackend]) (At 0 DeadlineFires)).2
  = [ClearTimeout;
     CallReject (join_lines ["Backend startup timeout - process may have exited";
                             "Process killed: undefined"; "Exit code: undefined";
                             "Saw startup begin: false"; "Saw migrations: false";
                             "--- STDOUT ---"; "--- STDERR ---"])].
Proof.
  exact (proj1 (deadline_rejects_with_bounded_report
                  (exec init [Spawn; AppKillsBackend]) 0
                  (set_child (kill spawned) new_attempt)
                  eq_refl eq_refl eq_refl eq_refl)).
Defined.

Lemma prefix_of_append (p q : string) : ∀ hay,
  String.prefix (p +:+ q) hay = true → String.prefix p hay = true.
Proof.
  induction p as [|c p IH]; intros hay H.
  - destruct hay; reflexivity.
  - destruct hay as [|d hay]; [discriminate|].
    change (String c p +:+ q) with (String c (p +:+ q)) in H.
    simpl in *. destruct (Ascii.ascii_dec c d); [|discriminate]. auto.
Qed.

Lemma includes_of_append (p q : string) : ∀ hay,
  includes hay (p +:+ q) = true → includes hay p = true.
Proof.
  induction hay as [|d hay IH]; intros H;
    rewrite StringFacts.includes_unfold in H; rewrite StringFacts.includes_unfold.
  - rewrite orb_false_r in *. by apply (prefix_of_append p q).
  - apply orb_true_iff in H as [H|H]; apply orb_true_iff.
    + left. by apply (prefix_of_append p q).
    + right. auto.
Qed.

Lemma alembic_mentioned (output : string) :
  includes output "alembic.runtime.migration" = true → includes output "alembic" = true.
Proof. apply (includes_of_append "alembic" ".runtime.migration"). Qed.

(** What one chunk does to the two progress flags. *)
Lemma react_progress bp g a e :
  let chunk needle := match e with
                      | StdoutData output | StderrData output => includes output needle
                      | _ => false
                      end in
  sawStartupBegin (react bp g a e).1.2
  = sawStartupBegin a || chunk "Started server process"
  ∧ sawMigrations (react bp g a e).1.2
    = sawMigrations a || (chunk "migration" || chunk "alembic").
Proof.
  cbv zeta.
  destruct e as [out|out| |k r| |st|message].
  1-2: unfold_handlers; cbn -[includes];
    destruct (includes out "Started server process") eqn:H1;
    destruct (includes out "migration") eqn:H2;
    destruct (includes out "alembic") eqn:H3;
    destruct (includes out "alembic.runtime.migration") eqn:H4;
    try (apply alembic_mentioned in H4; congruence);
    cbn -[includes]; repeat case_match; simplify_eq/=;
    rewrite ?orb_true_r, ?orb_false_r; auto.
  all: try destruct k; try destruct r; run_handlers; rewrite ?orb_false_r; auto.
Qed.

Lemma step_progress s e i a :
  attempts s !! i = Some a →
  ∃ b, attempts (step s e).1 !! i = Some b
       ∧ sawStartupBegin b
         = sawStartupBegin a || mentions "Started server process" (chunks_of i [e])
       ∧ sawMigrations b
         = sawMigrations a || (mentions "migration" (chunks_of i [e])
                               || mentions "alembic" (chunks_of i [e])).
Proof.
  intros Ha.
  assert (Hsame : ∃ b, attempts s !! i = Some b
                       ∧ sawStartupBegin b = sawStartupBegin a || false
                       ∧ sawMigrations b = sawMigrations a || (false || false)).
  { exists a. rewrite !orb_false_r. auto. }
  assert (Hkill : ∀ k, ∃ b,
    alter (fun a => set_child (kill (child a)) a) k (attempts s) !! i = Some b
    ∧ sawStartupBegin b = sawStartupBegin a || false
    ∧ sawMigrations b = sawMigrations a || (false || false)).
  { intros k. rewrite list_lookup_alter, !orb_false_r.
    case_decide; subst; rewrite Ha; simpl; eauto. }
  destruct e as [j ae| | | |]; unfold mentions, chunks_of; cbn -[includes].
  - destruct (Nat.eqb_spec i j) as [<-|Hne].
    + rewrite Ha. destruct (enabled a ae) eqn:Hen.
      * destruct (react_progress (current_child s) (globals s) a ae) as [Ho He].
        destruct (react _ _ _ _) as [[g' a'] cs]. cbn -[includes] in *.
        exists a'. split; [apply list_lookup_insert_eq; eapply lookup_lt_Some, Ha|].
        rewrite Ho, He. destruct ae; cbn -[includes]; rewrite ?orb_false_r; auto.
      * destruct ae; simpl in Hen; try discriminate; exact Hsame.
    + destruct (attempts s !! j) as [a0|] eqn:Hj; cbn -[includes].
      * destruct (enabled a0 ae); cbn -[includes].
        -- destruct (react _ _ _ _) as [[g' a'] cs]. cbn -[includes].
           rewrite list_lookup_insert_ne by congruence.
           destruct ae; exact Hsame.
        -- destruct ae; exact Hsame.
      * destruct ae; exact Hsame.
  - destruct (scheduledStarts (globals s)); simpl; [exact Hsame|].
    exists a. rewrite !orb_false_r. split; [|auto].
    apply lookup_app_l_Some. exact Ha.
  - destruct (scheduledStarts (globals s)); simpl; exact Hsame.
  - unfold kill_current. destruct (backendProcess s) as [k|]; simpl; auto.
  - unfold kill_current. destruct (backendProcess s) as [k|]; simpl; auto.
Qed.

Lemma mentions_app needle i evs1 evs2 :
  mentions needle (chunks_of i (evs1 ++ evs2))
  = mentions needle (chunks_of i evs1) || mentions needle (chunks_of i evs2).
Proof. unfold mentions, chunks_of. rewrite omap_app. apply existsb_app. Qed.

(** X26. The two progress flags of the timeout report say what the
    child has printed so far: after any events, [sawStartupBegin] is set
    exactly if it was set before or some chunk delivered to the attempt,
    on either stream, contains "Started server process", and
    [sawMigrations] exactly if it was set before or some chunk contains
    "migration" or "alembic". Texts are looked for inside one chunk at a
    time, the flags are never cleared, and no timer, health result, exit
    or restart changes them. *)
Theorem progress_flags_reflect_output
    (s : Session) (evs : list Event) (i : nat) (a : Attempt) :
  attempts s !! i = Some a →
  ∃ b, attempts (exec s evs) !! i = Some b
       ∧ sawStartupBegin b
         = sawStartupBegin a || mentions "Started server process" (chunks_of i evs)
       ∧ sawMigrations b
         = sawMigrations a || (mentions "migration" (chunks_of i evs)
                               || mentions "alembic" (chunks_of i evs)).
Proof.
  revert s a. induction evs as [|e evs IH]; intros s a Ha.
  - exists a. cbn -[includes]. rewrite !orb_false_r. auto.
  - destruct (step_progress s e i a Ha) as (b & Hb & Ho & He).
    destruct (IH (step s e).1 b Hb) as (c & Hc & Ho' & He').
    exists c. split; [exact Hc|].
    change (e :: evs) with ([e] ++ evs).
    rewrite !mentions_app, Ho', He', Ho, He.
    split; [by rewrite orb_assoc|].
    destruct (sawMigrations a), (mentions "migration" (chunks_of i [e])),
      (mentions "alembic" (chunks_of i [e])), (mentions "migration" (chunks_of i evs)),
      (mentions "alembic" (chunks_of i evs)); reflexivity.
Qed.

Lemma progress_flags_reflect_output_witness :
  ∃ b, attempts (exec first_spawn chatty_start) !! 0 = Some b
       ∧ sawStartupBegin b = true
       ∧ sawMigrations b = true.
Proof.
  exact (progress_flags_reflect_output first_spawn chatty_start 0 new_attempt eq_refl).
Defined.

End SessionFacts.

(** ** The build scripts *)

Module BuildScriptsFacts.
Import BuildScripts.

Ltac unfold_script :=
  unfold main, buildBundledVenv, preparePythonBundle, ensureDir;
  unfold guarded, unguarded; unfold perform, existsSync, error, throw, done, fresh;
  unfold mbind, script_bind, and_then; simpl.

(** Follow the script through the outcome of one operation or one check
    of the disk. *)
Ltac script_step :=
  match goal with
  | |- context [effect ?m ?op ?d] =>
      destruct (effect m op d) as [? [?|]] eqn:?; simpl
  | |- context [Resolver.present ?d ?p] =>
      destruct (Resolver.present d p) eqn:?; simpl
  | |- context [Resolver.is_darwin ?p] =>
      destruct (Resolver.is_darwin p) eqn:?; simpl
  end.

(** A failed operation of a run given in full is its last one. *)
Ltac failure_is_last :=
  let k := fresh "k" in
  let x := fresh "x" in
  let Hk := fresh "Hk" in
  let Hf := fresh "Hf" in
  intros k x Hk Hf;
  repeat (lazymatch type of Hk with None = _ => fail | _ => idtac end;
          destruct k as [|k]; simpl in Hk;
          [injection Hk as <-; simpl in Hf; first [discriminate|reflexivity]|]);
  discriminate.

Ltac some_prefix_of :=
  first [ exists 0; split; [reflexivity|auto]
        | exists 1; split; [reflexivity|auto]
        | exists 2; split; [reflexivity|auto]
        | exists 3; split; [reflexivity|auto] ].

Ltac some_prefix :=
  first [ by exists 0 | by exists 1 | by exists 2 | by exists 3 | by exists 4
        | by exists 5 | by exists 6 | by exists 7 ].

(** X27. The build of the bundled venv runs its seven shell commands in
    one fixed order and stops at the first operation that fails: a
    failed operation is always the last one performed. The script ends
    with status 0 exactly when all seven commands ran and no operation
    failed, the check of the installed packages included; the symlinks
    of the venv are resolved only on macOS and only after all seven
    commands succeeded. *)
Theorem build_stops_at_first_failure (m : Machine) (d : Resolver.Disk) :
  let out := main (buildBundledVenv m) (fresh d) in
  let ops := performed out.1 in
  (∃ n, commands_of ops = take n (build_commands m))
  ∧ (∀ k x, ops !! k = Some x → failed x = true → S k = length ops)
  ∧ (out.2 = None ↔
     commands_of ops = build_commands m ∧ forallb (fun x => negb (failed x)) ops = true)
  ∧ (∀ k dir e, ops !! k = Some (ResolveSymlinksInDir dir, e) →
       Resolver.is_darwin (PLATFORM m) = true
       ∧ dir = BUNDLED_VENV_DIR m
       ∧ commands_of (take k ops) = build_commands m
       ∧ forallb (fun x => negb (failed x)) (take k ops) = true).
Proof.
  cbv zeta. unfold build_commands.
  set (c1 := which_python m). set (c2 := python_version m).
  set (c3 := create_venv m). set (c4 := upgrade_pip m).
  set (c5 := install_pillow m). set (c6 := install_requirements m).
  set (c7 := verify_packages m).
  unfold_script.
  fold c1 c2 c3 c4 c5 c6 c7.
  set (p1 := BUILD_DIR m). set (p2 := BUNDLED_VENV_DIR m).
  set (p3 := requirementsPath m).
  clearbody c1 c2 c3 c4 c5 c6 c7 p1 p2 p3.
  repeat script_step.
  all: split; [some_prefix|].
  all: split; [failure_is_last|].
  all: split; [split; [try discriminate; intros _; split; reflexivity
                      |intros [Hc Hf]; simpl in Hf; try discriminate;
                       try reflexivity; try congruence]|].
  all: intros k dir e Hk;
    repeat (lazymatch type of Hk with None = _ => fail | _ => idtac end;
            destruct k as [|k]; simpl in Hk;
            [first [discriminate
                   |injection Hk as <- <-; repeat split; reflexivity]|]);
    discriminate.
Qed.

(** X28. The script that prepares the Python bundle stops at the first
    operation that fails, with one exception: the download of the
    embeddable Python, which is attempted on Windows only and at most
    once, may fail and the script goes on. The script ends with status 0
    exactly when its three venv commands ran, in their order and last,
    and nothing but the download failed; before them it runs the two
    Python checks, on macOS only. *)
Theorem bundle_download_failure_is_not_fatal (m : Machine) (d : Resolver.Disk) :
  let out := main (preparePythonBundle m) (fresh d) in
  let ops := performed out.1 in
  (∀ k x, ops !! k = Some x → failed x = true → is_download x = false →
     S k = length ops)
  ∧ (out.2 = None ↔
     (∃ pre, commands_of ops = pre ++ bundle_commands m)
     ∧ forallb (fun x => negb (failed x) || is_download x) ops = true)
  ∧ (∀ k x, ops !! k = Some x → is_download x = true →
       PLATFORM m = PortReclaimer.Win32
       ∧ x.1 = DownloadFile (embeddableUrl m)
                 (join m [PYTHON_BUNDLE_DIR m; "python-embed.zip"]))
  ∧ length (List.filter is_download ops) ≤ 1
  ∧ ∃ pre n,
      commands_of ops = pre ++ take n (bundle_commands m)
      ∧ (pre = []
         ∨ PLATFORM m = PortReclaimer.Darwin
           ∧ (pre = ["python3 --version"]
              ∨ pre = ["python3 --version"; "which python3"])).
Proof.
  cbv zeta. unfold bundle_commands, main, preparePythonBundle. cbn [guarded_all].
  set (c1 := bundle_create_venv m). set (c2 := bundle_upgrade_pip m).
  set (c3 := bundle_install_requirements m).
  set (u := embeddableUrl m).
  set (z := join m [PYTHON_BUNDLE_DIR m; "python-embed.zip"]).
  set (b := join m [PYTHON_BUNDLE_DIR m; "bin"]).
  set (p1 := BUILD_DIR m). set (p2 := PYTHON_BUNDLE_DIR m).
  set (p3 := requirementsPath m).
  set (v := "python3 --version"). set (w := "which python3").
  clearbody c1 c2 c3 u z b p1 p2 p3.
  destruct (PLATFORM m) eqn:Hp.
  all: unfold_script; repeat script_step.
  all: split;
    [let k := fresh "k" in
     let x := fresh "x" in
     let Hk := fresh "Hk" in
     let Hf := fresh "Hf" in
     let Hd := fresh "Hd" in
     intros k x Hk Hf Hd;
     repeat (lazymatch type of Hk with None = _ => fail | _ => idtac end;
             destruct k as [|k]; simpl in Hk;
             [injection Hk as <-; simpl in Hf, Hd;
              first [discriminate|reflexivity]|]);
     discriminate|].
  all: split;
    [split;
     [first [discriminate
            |intros _; split;
             [first [by exists [] | by exists [v; w]]|reflexivity]]
     |intros [[pre Hc] Hf]; simpl in Hf; try discriminate; try reflexivity;
      apply (f_equal length) in Hc; rewrite length_app in Hc; simpl in Hc; lia]|].
  all: split;
    [let k := fresh "k" in
     let x := fresh "x" in
     let Hk := fresh "Hk" in
     let Hd := fresh "Hd" in
     intros k x Hk Hd;
     repeat (lazymatch type of Hk with None = _ => fail | _ => idtac end;
             destruct k as [|k]; simpl in Hk;
             [injection Hk as <-; simpl in Hd;
              first [discriminate|split; reflexivity]|]);
     discriminate|].
  all: split; [simpl; lia|].
  all: first [ exists []; some_prefix_of
             | exists [v]; some_prefix_of
             | exists [v; w]; some_prefix_of ].
Qed.

End BuildScriptsFacts.
